(** * LlamaTransformerSplitServer: a shallow embedding of
      [src/LlamaTransformerServer.py] and the properties of its
      length-prefixed framing, request handler and listener loop. *)

From Stdlib Require Import String ZArith Bool Lia List.
From Stdlib.Strings Require Import Byte.
From Equations Require Import Equations.
Import ListNotations.

Local Open Scope string_scope.
Local Open Scope list_scope.
Local Open Scope Z_scope.

Set Implicit Arguments.
#[local] Set Warnings "-notation-for-abbreviation,-register-all".

(** ** Python values used by the framing code *)

(** [bytes] objects are lists of bytes; [len] is Python's [len]. *)
Definition bytes := list byte.

Definition len {A : Type} (l : list A) : Z := Z.of_nat (length l).

Definition byte_val (b : byte) : Z := Z.of_N (Byte.to_N b).

Definition byte_of_Z (z : Z) : byte :=
  match Byte.of_N (Z.to_N (z mod 256)) with
  | Some b => b
  | None => x00
  end.

(** The exceptions (all subclasses of Python's [Exception]) that the
    handler and the listener can meet.  [BaseException]-only signals
    such as [KeyboardInterrupt] are outside this model. *)
Inductive exn : Type :=
| StructError (msg : string)
| RuntimeError (msg : string)
| OSError (msg : string)
| ValueError (msg : string)
| PickleError (msg : string)
| UnboundLocalError (name : string)
| IndexError (msg : string)
| AttributeError (msg : string)
| TypeError (msg : string)
| ModuleError (msg : string).

Inductive result (A : Type) : Type :=
| OK (a : A)
| Raise (e : exn).
Arguments OK {A} a.
Arguments Raise {A} e.

(** ** [struct.pack('>I', n)] and [struct.unpack('>I', b)[0]] *)

Definition pack_I (n : Z) : result bytes :=
  if (0 <=? n) && (n <? 2 ^ 32)
  then OK [byte_of_Z (n / 2 ^ 24); byte_of_Z (n / 2 ^ 16);
           byte_of_Z (n / 2 ^ 8); byte_of_Z n]
  else Raise (StructError "'I' format requires 0 <= number <= 4294967295").

Definition unpack_I (b : bytes) : result Z :=
  match b with
  | [b0; b1; b2; b3] =>
      OK (byte_val b0 * 2 ^ 24 + byte_val b1 * 2 ^ 16
          + byte_val b2 * 2 ^ 8 + byte_val b3)
  | _ => Raise (StructError "unpack requires a buffer of 4 bytes")
  end.

(** ** The connection socket *)

(** What the peer and the network do to the receiving side: a run of
    bytes that becomes readable at once, or a failure of the next
    [recv].  When the list is used up the peer has closed its side and
    [recv] returns [b'']. *)
Inductive arrival : Type :=
| Data (bs : bytes)
| Fault (e : exn).

(** Lines printed by the handler and the listener. *)
Inductive log_line : Type :=
| LogClientError (e : exn)
| LogListening
| LogAccepted (addr : nat)
| LogServerError (e : exn)
| LogTracebackHeader
| LogTraceback (e : exn).

(** Observable actions on one connection, oldest first. *)
Inductive sock_event : Type :=
| EvRecv (bufsize : Z) (got : bytes)
| EvRecvFail (bufsize : Z) (e : exn)
| EvSend (delivered : bytes)
| EvSendFail (e : exn)
| EvPrint (line : log_line)
| EvClose.

(** [room] is the number of bytes the peer still takes before the
    connection breaks for writing ([None]: it never breaks). *)
Record Socket : Type := mkSocket {
  inbound : list arrival;
  room : option nat;
  events : list sock_event
}.

Definition log_event (ev : sock_event) (s : Socket) : Socket :=
  mkSocket s.(inbound) s.(room) (s.(events) ++ [ev]).

(** State-and-exception monad of the handler: every statement may
    touch the socket and may raise. *)
Definition M (A : Type) : Type := Socket -> result A * Socket.

Definition ret {A} (a : A) : M A := fun s => (OK a, s).
Definition lift {A} (r : result A) : M A := fun s => (r, s).
Definition bind {A B} (m : M A) (k : A -> M B) : M B :=
  fun s => match m s with
           | (OK a, s') => k a s'
           | (Raise e, s') => (Raise e, s')
           end.

Declare Scope py_scope.
Delimit Scope py_scope with py.
Notation "x <- m ;; k" := (bind m (fun x => k))
  (at level 61, m at next level, right associativity) : py_scope.
Notation "m ;;; k" := (bind m (fun _ => k))
  (at level 61, right associativity) : py_scope.

(** [try: body / except Exception as e: handler e / finally: final]. *)
Definition try_except_finally (body : M unit) (handler : exn -> M unit)
    (final : M unit) : M unit :=
  fun s =>
    let after :=
      match body s with
      | (OK tt, s1) => (OK tt, s1)
      | (Raise e, s1) => handler e s1
      end in
    match final (snd after) with
    | (OK tt, s2) => (fst after, s2)
    | (Raise e, s2) => (Raise e, s2)
    end.

(** *** [socket.recv] *)

(** The next readable chunk: at most [n] bytes of the first non-empty
    run; [b''] only at end of stream. *)
Fixpoint take_chunk (n : nat) (inb : list arrival)
  : result bytes * list arrival :=
  match inb with
  | [] => (OK [], [])
  | Fault e :: rest => (Raise e, rest)
  | Data [] :: rest => take_chunk n rest
  | Data bs :: rest =>
      (OK (firstn n bs),
       match skipn n bs with
       | [] => rest
       | tl => Data tl :: rest
       end)
  end.

Definition recv (bufsize : Z) : M bytes :=
  fun s =>
    if bufsize <? 0
    then (Raise (ValueError "negative buffersize in recv"), s)
    else
      match take_chunk (Z.to_nat bufsize) s.(inbound) with
      | (OK chunk, inb') =>
          (OK chunk,
           mkSocket inb' s.(room) (s.(events) ++ [EvRecv bufsize chunk]))
      | (Raise e, inb') =>
          (Raise e,
           mkSocket inb' s.(room) (s.(events) ++ [EvRecvFail bufsize e]))
      end.

(** *** [socket.sendall] *)

Definition sendall (data : bytes) : M unit :=
  fun s =>
    match s.(room) with
    | None => (OK tt, log_event (EvSend data) s)
    | Some r =>
        if (length data <=? r)%nat
        then (OK tt,
              mkSocket s.(inbound) (Some (r - length data)%nat)
                       (s.(events) ++ [EvSend data]))
        else (Raise (OSError "Broken pipe"),
              mkSocket s.(inbound) (Some 0%nat)
                       (s.(events) ++ [EvSend (firstn r data);
                                       EvSendFail (OSError "Broken pipe")]))
    end.

(** [socket.close] and [print] are taken not to fail. *)
Definition close : M unit := fun s => (OK tt, log_event EvClose s).

Definition print (line : log_line) : M unit :=
  fun s => (OK tt, log_event (EvPrint line) s).

(** Bytes that reached the peer, in order. *)
Fixpoint wire (evs : list sock_event) : bytes :=
  match evs with
  | [] => []
  | EvSend bs :: rest => bs ++ wire rest
  | _ :: rest => wire rest
  end.

(** Bytes still readable on the connection. *)
Fixpoint pending (inb : list arrival) : nat :=
  match inb with
  | [] => 0
  | Data bs :: rest => length bs + pending rest
  | Fault _ :: rest => pending rest
  end.

(** Bytes the peer delivers before the connection fails or ends. *)
Fixpoint readable (inb : list arrival) : bytes :=
  match inb with
  | [] => []
  | Data bs :: rest => bs ++ readable rest
  | Fault _ :: _ => []
  end.

(** The connection ends by the peer closing, not by a failure. *)
Fixpoint faultless (inb : list arrival) : bool :=
  match inb with
  | [] => true
  | Data _ :: rest => faultless rest
  | Fault _ :: _ => false
  end.

(** A read of the receive loop: what was asked for and what came. *)
Definition bounded_read (rd : Z * bytes) : Prop :=
  0 < fst rd <= 2048 /\ 0 < len (snd rd) <= fst rd.

Definition read_event (rd : Z * bytes) : sock_event :=
  EvRecv (fst rd) (snd rd).

(** What the peer's receiving side gets of the sends on a connection:
    the bytes of each [sendall], as one run. *)
Fixpoint transmit (evs : list sock_event) : list arrival :=
  match evs with
  | [] => []
  | EvSend bs :: rest => Data bs :: transmit rest
  | _ :: rest => transmit rest
  end.

(** Events of the connection's traffic, as opposed to log lines and
    the closing of the socket. *)
Definition io_event (ev : sock_event) : Prop :=
  match ev with
  | EvRecv _ _ | EvRecvFail _ _ | EvSend _ | EvSendFail _ => True
  | EvPrint _ | EvClose => False
  end.

(** From [s] to [s'] the connection saw traffic only, and [sent] is
    what reached the peer meanwhile. *)
Definition traffic (s s' : Socket) (sent : bytes) : Prop :=
  exists evs,
    events s' = events s ++ evs /\ Forall io_event evs /\ wire evs = sent.

(** ** Frame codec *)

Definition inspect {A : Type} (a : A) : {b : A | a = b} :=
  exist _ a eq_refl.

(** Lines 55-62: the receive loop.  Every iteration that does not
    raise takes at least one byte off the connection, which is what
    makes the loop terminate. *)
Equations? recv_loop (data_size bytes_recd : Z) (chunks : list bytes)
    (s : Socket) : result (list bytes) * Socket
    by wf (pending (inbound s)) lt :=
  recv_loop data_size bytes_recd chunks s
    with inspect (bytes_recd <? data_size) := {
    | exist _ false _ => (OK chunks, s)
    | exist _ true _
        with inspect (recv (Z.min (data_size - bytes_recd) 2048) s) := {
        | exist _ (Raise e, s') _ => (Raise e, s')
        | exist _ (OK [], s') _ =>
            (Raise (RuntimeError "socket connection broken"), s')
        | exist _ (OK (b :: bs), s') Hrecv =>
            recv_loop data_size (bytes_recd + len (b :: bs))
                      (chunks ++ [b :: bs]) s' } }.
Proof.
  assert (shrink : forall n inb c inb',
             take_chunk n inb = (OK c, inb') ->
             (pending inb = length c + pending inb')%nat).
  { intros n inb. induction inb as [|[seg|e0] inb IH]; intros c inb' H.
    - inversion H. reflexivity.
    - destruct seg as [|x seg]; simpl in H; [simpl; auto|].
      inversion H; subst; clear H.
      cbn [pending].
      rewrite <- (firstn_skipn n (x :: seg)) at 1. rewrite length_app.
      destruct (skipn n (x :: seg)); simpl; lia.
    - discriminate. }
  unfold recv in Hrecv.
  destruct (Z.min (data_size - bytes_recd) 2048 <? 0); [discriminate|].
  destruct (take_chunk _ _) as [[c|e0] inb'] eqn:E; inversion Hrecv; subst.
  apply shrink in E. simpl in *. lia.
Qed.

(** Lines 52-63: read one frame. *)
Definition readFrame : M bytes :=
  (header <- recv 4 ;;
   data_size <- lift (unpack_I header) ;;
   chunks <- recv_loop data_size 0 [] ;;
   ret (concat chunks))%py.

(** The socket once a [recv(4)] has taken the header [h] off a first
    run [h ++ p0]. *)
Definition after_header (s : Socket) (h p0 : bytes) (rest : list arrival)
  : Socket :=
  mkSocket (match p0 with [] => rest | _ => Data p0 :: rest end)
           (room s) (events s ++ [EvRecv 4 h]).

(** Lines 112-114: write one frame. *)
Definition writeFrame (result : bytes) : M unit :=
  (let result_size := len result in
   header <- lift (pack_I result_size) ;;
   sendall header ;;;
   sendall result)%py.

Definition fresh_socket (inb : list arrival) (r : option nat) : Socket :=
  mkSocket inb r [].

(** ** Values carried by a request *)

Inductive dtype : Type := Float32 | Float16 | BFloat16 | Int64.

(** A tensor as far as the handler can tell one from another: where it
    lives, its element type and its elements. *)
Record Tensor : Type := mkTensor {
  t_device : string;
  t_dtype : dtype;
  t_data : list Z
}.

(** The objects [pickle.loads] can hand to the handler. *)
Inductive PyVal : Type :=
| PyNone
| PyBool (b : bool)
| PyTensor (t : Tensor)
| PyTuple (items : list PyVal).

(** The eight names bound by the unpacking at line 69. *)
Record Request : Type := mkRequest {
  hidden_states : PyVal;
  causal_mask : PyVal;
  position_ids : PyVal;
  past_key_values : PyVal;
  output_attentions : PyVal;
  use_cache : PyVal;
  cache_position : PyVal;
  position_embeddings : PyVal
}.

(** The 3-tuple built at line 106. *)
Record Response : Type := mkResponse {
  out_hidden_states : PyVal;
  next_cache : PyVal;
  out_past_key_values : PyVal
}.

Definition response_tuple (r : Response) : PyVal :=
  PyTuple [out_hidden_states r; next_cache r; out_past_key_values r].

(** Keyword arguments of one decoder-layer call (lines 88-97). *)
Record LayerCall : Type := mkLayerCall {
  arg_hidden_states : PyVal;
  kw_attention_mask : PyVal;
  kw_position_ids : PyVal;
  kw_past_key_value : PyVal;
  kw_output_attentions : PyVal;
  kw_use_cache : PyVal;
  kw_cache_position : PyVal;
  kw_position_embeddings : PyVal
}.

(** A decoder layer is an opaque step returning a tuple, or raising. *)
Definition Layer : Type := LayerCall -> result (list PyVal).

Definition rbind {A B} (r : result A) (k : A -> result B) : result B :=
  match r with
  | OK a => k a
  | Raise e => Raise e
  end.

Declare Scope res_scope.
Delimit Scope res_scope with res.
Notation "x <- r ;; k" := (rbind r (fun x => k))
  (at level 61, r at next level, right associativity) : res_scope.

(** A local variable is [None] until its first assignment; reading it
    before that raises [UnboundLocalError]. *)
Definition read_local {A} (name : string) (v : option A) : result A :=
  match v with
  | Some a => OK a
  | None => Raise (UnboundLocalError name)
  end.

Definition is_not_None (v : PyVal) : bool :=
  match v with
  | PyNone => false
  | _ => true
  end.

(** [t[i]] on a tuple. *)
Definition tuple_index (t : list PyVal) (i : nat) : result PyVal :=
  match nth_error t i with
  | Some v => OK v
  | None => Raise (IndexError "tuple index out of range")
  end.

Fixpoint result_map {A B} (f : A -> result B) (l : list A)
  : result (list B) :=
  match l with
  | [] => OK []
  | a :: rest =>
      (b <- f a ;; bs <- result_map f rest ;; OK (b :: bs))%res
  end.

Section Server.

(** [self.device], the loaded layers, the two [pickle] entry points
    and the tensor operations of the numeric library, all external to
    the handler. *)
Variable self_device : string.
Variable transformer_layers_split : list Layer.
Variable loads : bytes -> result PyVal.
Variable dumps : PyVal -> result bytes.
Variable cast_half : dtype -> list Z -> list Z.
Variable tensor_rows : Tensor -> result (list Tensor).
Variable tensor_bool : Tensor -> result bool.

Definition tensor_to (dev : string) (t : Tensor) : Tensor :=
  mkTensor dev (t_dtype t) (t_data t).

Definition tensor_half (t : Tensor) : Tensor :=
  mkTensor (t_device t) Float16 (cast_half (t_dtype t) (t_data t)).

(** [v.to(self.device).half()] *)
Definition to_device_half (v : PyVal) : result PyVal :=
  match v with
  | PyTensor t => OK (PyTensor (tensor_half (tensor_to self_device t)))
  | PyNone => Raise (AttributeError "'NoneType' object has no attribute 'to'")
  | PyBool _ => Raise (AttributeError "'bool' object has no attribute 'to'")
  | PyTuple _ => Raise (AttributeError "'tuple' object has no attribute 'to'")
  end.

(** Truth value of an object in an [if]. *)
Definition truthy (v : PyVal) : result bool :=
  match v with
  | PyNone => OK false
  | PyBool b => OK b
  | PyTensor t => tensor_bool t
  | PyTuple items => OK (negb (Nat.eqb (length items) 0))
  end.

(** The items a [for] or an unpacking gets out of an object. *)
Definition iterate (v : PyVal) : result (list PyVal) :=
  match v with
  | PyTuple items => OK items
  | PyTensor t => (rows <- tensor_rows t ;; OK (map PyTensor rows))%res
  | PyNone => Raise (TypeError "'NoneType' object is not iterable")
  | PyBool _ => Raise (TypeError "'bool' object is not iterable")
  end.

(** Line 69: unpack the decoded object into eight names. *)
Definition unpack_request (input_data : PyVal) : result Request :=
  (items <- iterate input_data ;;
   match items with
   | [a; b; c; d; e; f; g; h] => OK (mkRequest a b c d e f g h)
   | _ => Raise (ValueError "wrong number of values to unpack (expected 8)")
   end)%res.

(** Lines 86-103: the loop over the layers.  [next_decoder_cache] is
    the local of that name, unassigned until a layer stores it. *)
Fixpoint run_layers (layers : list Layer)
    (causal_mask' position_ids' past_key_values' output_attentions'
     use_cache' cache_position' position_embeddings' : PyVal)
    (hidden_states' : PyVal) (next_decoder_cache : option PyVal)
  : result (PyVal * option PyVal) :=
  match layers with
  | [] => OK (hidden_states', next_decoder_cache)
  | decoder_layer :: rest =>
      (layer_outputs <-
         decoder_layer
           (mkLayerCall hidden_states' causal_mask' position_ids'
              past_key_values' output_attentions' use_cache'
              cache_position' position_embeddings') ;;
       hs <- tuple_index layer_outputs 0 ;;
       uc <- truthy use_cache' ;;
       ndc <- (if uc
               then (oa <- truthy output_attentions' ;;
                     c <- tuple_index layer_outputs (if oa then 2 else 1) ;;
                     OK (Some c))
               else OK next_decoder_cache) ;;
       run_layers rest causal_mask' position_ids' past_key_values'
         output_attentions' use_cache' cache_position'
         position_embeddings' hs ndc)%res
  end.

(** Lines 68-106: from the decoded object to the local [output]
    ([None] while it is unassigned). *)
Definition execute (input_data : PyVal) : result (option Response) :=
  (req <- unpack_request input_data ;;
   hs <- to_device_half (hidden_states req) ;;
   pids <- to_device_half (position_ids req) ;;
   pkv <- to_device_half (past_key_values req) ;;
   cpos <- to_device_half (cache_position req) ;;
   cmask <- (if is_not_None (causal_mask req)
             then to_device_half (causal_mask req)
             else OK (causal_mask req)) ;;
   if is_not_None (position_embeddings req)
   then
     tensors <- iterate (position_embeddings req) ;;
     pe <- result_map to_device_half tensors ;;
     final <- run_layers transformer_layers_split cmask pids pkv
                (output_attentions req) (use_cache req) cpos (PyTuple pe)
                hs None ;;
     ndc <- read_local "next_decoder_cache" (snd final) ;;
     OK (Some (mkResponse (fst final) ndc pkv))
   else OK None)%res.

(** Lines 65-114: decode the payload, run the layers, send the reply. *)
Definition process_frame (data : bytes) : M unit :=
  (input_data <- lift (loads data) ;;
   output <- lift (execute input_data) ;;
   out <- lift (read_local "output" output) ;;
   result <- lift (dumps (response_tuple out)) ;;
   writeFrame result)%py.

(** [p] is the pickled reply the handler computes for the request
    waiting on [s]. *)
Definition reply_of (s : Socket) (p : bytes) : Prop :=
  exists data s1 input_data out,
    readFrame s = (OK data, s1) /\
    loads data = OK input_data /\
    execute input_data = OK (Some out) /\
    dumps (response_tuple out) = OK p.

(** Lines 48-120. *)
Definition handle_client : M unit :=
  try_except_finally
    (data <- readFrame ;; process_frame data)%py
    (fun e => print (LogClientError e))
    close.

(** ** The listener (lines 122-139) *)

(** One client waiting in the backlog: its address, what it will send
    and how much it will read.  [AcceptFails] is a failing [accept]. *)
Inductive accept_outcome : Type :=
| Accepted (addr : nat) (inb : list arrival) (r : option nat)
| AcceptFails (e : exn).

Inductive setup_step : Type := StSocket | StSetsockopt | StBind | StListen.

(** What the system does during one pass of the outer loop: the call
    among socket/setsockopt/bind/listen that fails, if any, and then
    the results of the successive [accept] calls.  When these are used
    up no further client connects and [accept] blocks. *)
Record attempt : Type := mkAttempt {
  setup_failure : option (setup_step * exn);
  accepts : list accept_outcome
}.

Inductive srv_event : Type :=
| SvSocket
| SvSetsockopt
| SvBind
| SvListen
| SvSetupFail (st : setup_step) (e : exn)
| SvServerClose
| SvAccept (addr : nat)
| SvAcceptFail (e : exn)
| SvConn (addr : nat) (ev : sock_event)
| SvPrint (line : log_line).

(** How a loop that has no exit of its own stops being observed. *)
Inductive loop_end : Type :=
| Waiting
| Failed (e : exn).

(** Everything connection [addr] does, from its accept to the return
    of its handler. *)
Definition conn_events (addr : nat) (inb : list arrival) (r : option nat)
  : list srv_event :=
  SvAccept addr :: SvPrint (LogAccepted addr)
  :: map (SvConn addr) (events (snd (handle_client (fresh_socket inb r)))).

Definition accepted (a : accept_outcome) : bool :=
  match a with
  | Accepted _ _ _ => true
  | AcceptFails _ => false
  end.

(** What one [accept] call and the handling that follows add to the
    server's trace. *)
Definition outcome_events (a : accept_outcome) : list srv_event :=
  match a with
  | Accepted addr inb r => conn_events addr inb r
  | AcceptFails e => [SvAcceptFail e]
  end.

(** Lines 131-134: the inner [while True]. *)
Fixpoint accept_loop (accs : list accept_outcome)
  : list srv_event * loop_end :=
  match accs with
  | [] => ([], Waiting)
  | AcceptFails e :: _ => ([SvAcceptFail e], Failed e)
  | Accepted addr inb r :: rest =>
      match fst (handle_client (fresh_socket inb r)) with
      | OK tt =>
          let (evs, fin) := accept_loop rest in
          (conn_events addr inb r ++ evs, fin)
      | Raise e => (conn_events addr inb r, Failed e)
      end
  end.

(** Lines 125-134: the body of the outer [try].  Leaving the [with]
    block closes the listening socket. *)
Definition listen_once (a : attempt) : list srv_event * loop_end :=
  match setup_failure a with
  | Some (StSocket, e) => ([SvSetupFail StSocket e], Failed e)
  | Some (StSetsockopt, e) =>
      ([SvSocket; SvSetupFail StSetsockopt e; SvServerClose], Failed e)
  | Some (StBind, e) =>
      ([SvSocket; SvSetsockopt; SvSetupFail StBind e; SvServerClose],
       Failed e)
  | Some (StListen, e) =>
      ([SvSocket; SvSetsockopt; SvBind; SvSetupFail StListen e;
        SvServerClose], Failed e)
  | None =>
      let (evs, fin) := accept_loop (accepts a) in
      ([SvSocket; SvSetsockopt; SvBind; SvListen; SvPrint LogListening]
       ++ evs
       ++ match fin with
          | Waiting => []
          | Failed _ => [SvServerClose]
          end,
       fin)
  end.

(** The first failing [accept] of a backlog. *)
Fixpoint accept_failure (accs : list accept_outcome) : option exn :=
  match accs with
  | [] => None
  | AcceptFails e :: _ => Some e
  | Accepted _ _ _ :: rest => accept_failure rest
  end.

(** The listener-level error of a pass, as the script has it: a
    failing socket/setsockopt/bind/listen, or else a failing accept. *)
Definition listener_failure (a : attempt) : option exn :=
  match setup_failure a with
  | Some (_, e) => Some e
  | None => accept_failure (accepts a)
  end.

(** Lines 136-139: the [except] branch of the outer loop. *)
Definition report (e : exn) : list srv_event :=
  [SvPrint (LogServerError e); SvPrint LogTracebackHeader;
   SvPrint (LogTraceback e)].

(** The whole of one pass that ends in a listener-level error. *)
Definition failed_pass (a : attempt) : list srv_event :=
  fst (listen_once a)
  ++ match listener_failure a with
     | Some e => report e
     | None => []
     end.

(** Where the server is once the scripted part of its run is over:
    about to start a pass of the outer loop, or blocked in [accept]. *)
Inductive server_state : Type :=
| Unbound
| Accepting.

(** Lines 122-139: the outer [while True], run against the passes the
    script describes. *)
Fixpoint start_server (script : list attempt)
  : list srv_event * server_state :=
  match script with
  | [] => ([], Unbound)
  | a :: rest =>
      match listen_once a with
      | (evs, Waiting) => (evs, Accepting)
      | (evs, Failed e) =>
          let (later, st) := start_server rest in
          (evs ++ report e ++ later, st)
      end
  end.

End Server.

(** ** Further notions used in the statements *)

(** The failure the connection ends in, if it ends in one. *)
Fixpoint first_fault (inb : list arrival) : option exn :=
  match inb with
  | [] => None
  | Data _ :: rest => first_fault rest
  | Fault e :: _ => Some e
  end.


(** The peer takes [n] more bytes. *)
Definition takes (r : option nat) (n : nat) : bool :=
  match r with
  | None => true
  | Some k => (n <=? k)%nat
  end.

(** The write budget left once [n] bytes have gone out. *)
Definition room_after (r : option nat) (n : nat) : option nat :=
  match r with
  | None => None
  | Some k => Some (k - n)%nat
  end.

(** Events of the accept loop, as opposed to those of setting the
    listening socket up and closing it. *)
Definition client_event (ev : srv_event) : Prop :=
  match ev with
  | SvAccept _ | SvAcceptFail _ | SvConn _ _ | SvPrint (LogAccepted _) => True
  | _ => False
  end.

(** ** A small deployment on which the handler can be run *)

Module Sample.

Definition device : string := "cuda".

(** An integer as half precision stores it: eleven significant bits,
    ties to even.  Magnitudes from 65520 on, which overflow, are left
    as they are. *)
Definition round_half (x : Z) : Z :=
  let a := Z.abs x in
  if (a <? 2048) || (65520 <=? a) then x
  else
    let ulp := 2 ^ (Z.log2 a - 10) in
    let q := a / ulp in
    let r := a mod ulp in
    let q' := if 2 * r <? ulp then q
              else if ulp <? 2 * r then q + 1
              else if Z.even q then q else q + 1 in
    Z.sgn x * (q' * ulp).

Definition cast_half (_ : dtype) (d : list Z) : list Z := map round_half d.

Definition tensor_rows (_ : Tensor) : result (list Tensor) :=
  Raise (TypeError "iteration over a 0-d tensor").

Definition tensor_bool (t : Tensor) : result bool :=
  match t_data t with
  | [x] => OK (negb (x =? 0))
  | _ => Raise (RuntimeError "Boolean value of Tensor is ambiguous")
  end.

(** A layer that shifts the activations by [tag] and returns the tuple
    (hidden, attention if asked, cache entry if asked). *)
Definition layer (tag : Z) : Layer :=
  fun call =>
    let hs :=
      match arg_hidden_states call with
      | PyTensor t =>
          PyTensor (mkTensor (t_device t) (t_dtype t)
                      (map (Z.add tag) (t_data t)))
      | v => v
      end in
    OK ([hs]
        ++ match kw_output_attentions call with
           | PyBool true => [PyTensor (mkTensor device Float16 [tag; 0])]
           | _ => []
           end
        ++ match kw_use_cache call with
           | PyBool true => [PyTensor (mkTensor device Float16 [tag; tag])]
           | _ => []
           end).

Definition layers : list Layer := [layer 1; layer 2].

Definition cpu (ty : dtype) (d : list Z) : PyVal :=
  PyTensor (mkTensor "cpu" ty d).

Definition rotary : PyVal := PyTuple [cpu Float32 [1; 0]; cpu Float32 [0; 1]].

(** The 8-tuple a client pickles, for given [use_cache] and
    [position_embeddings]. *)
Definition request_tuple (uc pe : PyVal) : PyVal :=
  PyTuple [cpu Float32 [10; 20]; PyNone; cpu Int64 [0; 1];
           cpu Float32 [7; 2049]; PyBool false; uc; cpu Int64 [0; 1]; pe].

(** An unpickler that knows three payloads and fails on the rest. *)
Definition loads (data : bytes) : result PyVal :=
  match map Byte.to_N data with
  | [1%N] => OK (request_tuple (PyBool true) rotary)
  | [2%N] => OK (request_tuple (PyBool true) PyNone)
  | [3%N] => OK (request_tuple (PyBool false) rotary)
  | _ => Raise (PickleError "could not unpickle")
  end.

(** A pickler that writes a tag per object and the tensors' elements. *)
Fixpoint encode (v : PyVal) : bytes :=
  match v with
  | PyNone => [x4e]
  | PyBool true => [x88]
  | PyBool false => [x89]
  | PyTensor t => x54 :: map byte_of_Z (t_data t)
  | PyTuple items => x28 :: concat (map encode items) ++ [x74]
  end.

Definition dumps (v : PyVal) : result bytes := OK (encode v).

Definition handle_client : M unit :=
  handle_client device layers loads dumps cast_half tensor_rows tensor_bool.

Definition execute : PyVal -> result (option Response) :=
  execute device layers cast_half tensor_rows tensor_bool.

Definition accept_loop : list accept_outcome -> list srv_event * loop_end :=
  accept_loop device layers loads dumps cast_half tensor_rows tensor_bool.

Definition outcome_events : accept_outcome -> list srv_event :=
  outcome_events device layers loads dumps cast_half tensor_rows tensor_bool.

Definition listen_once : attempt -> list srv_event * loop_end :=
  listen_once device layers loads dumps cast_half tensor_rows tensor_bool.

Definition failed_pass : attempt -> list srv_event :=
  failed_pass device layers loads dumps cast_half tensor_rows tensor_bool.

Definition start_server : list attempt -> list srv_event * server_state :=
  start_server device layers loads dumps cast_half tensor_rows tensor_bool.

(** A client that sends one frame holding the payload [data]. *)
Definition client (data : bytes) (r : option nat) : Socket :=
  fresh_socket
    [Data [x00; x00; x00; byte_of_Z (len data)]; Data data] r.

End Sample.

(** * Properties *)

(** ** Byte strings and [struct] *)

Lemma byte_val_range b : 0 <= byte_val b < 256.
Proof.
  unfold byte_val. pose proof (Byte.to_N_bounded b). lia.
Qed.

Lemma byte_val_of_Z z : byte_val (byte_of_Z z) = z mod 256.
Proof.
  unfold byte_val, byte_of_Z.
  assert (R : 0 <= z mod 256 < 256) by (apply Z.mod_pos_bound; lia).
  destruct (Byte.of_N (Z.to_N (z mod 256))) as [b|] eqn:E.
  - apply Byte.to_of_N in E. rewrite E. lia.
  - apply Byte.of_N_None_iff in E. lia.
Qed.

Lemma unpack_pack_I n h : pack_I n = OK h -> unpack_I h = OK n.
Proof.
  unfold pack_I.
  destruct (0 <=? n) eqn:E1; [|discriminate].
  destruct (n <? 2 ^ 32) eqn:E2; [|discriminate].
  simpl. intros H. inversion H; subst; clear H.
  unfold unpack_I. rewrite !byte_val_of_Z. f_equal.
  apply Z.leb_le in E1. apply Z.ltb_lt in E2.
  change (2 ^ 32) with 4294967296 in E2.
  change (2 ^ 24) with 16777216. change (2 ^ 16) with 65536.
  change (2 ^ 8) with 256.
  Z.to_euclidean_division_equations. lia.
Qed.

(** ** The receiving side of a socket *)

Lemma recv_loop_step N r chunks s :
  recv_loop N r chunks s =
  if r <? N then
    match recv (Z.min (N - r) 2048) s with
    | (Raise e, s') => (Raise e, s')
    | (OK [], s') => (Raise (RuntimeError "socket connection broken"), s')
    | (OK (b :: bs), s') =>
        recv_loop N (r + len (b :: bs)) (chunks ++ [b :: bs]) s'
    end
  else (OK chunks, s).
Proof.
  funelim (recv_loop N r chunks s);
    match goal with E : (_ <? _) = _ |- _ => rewrite E end;
    try match goal with E : recv _ _ = _ |- _ => rewrite E end;
    reflexivity.
Qed.

Lemma take_chunk_ok n inb c inb' :
  take_chunk n inb = (OK c, inb') ->
  readable inb = c ++ readable inb' /\ (length c <= n)%nat /\
  (pending inb = length c + pending inb')%nat /\
  (c = [] -> (0 < n)%nat -> inb' = []) /\
  faultless inb' = faultless inb.
Proof.
  revert c inb'. induction inb as [|[seg|e] inb IH]; intros c inb' H.
  - inversion H; subst. repeat split; simpl; auto; lia.
  - destruct seg as [|x seg].
    + simpl in *. auto.
    + cbn [take_chunk] in H. inversion H; subst; clear H.
      pose proof (firstn_skipn n (x :: seg)) as E.
      pose proof (firstn_le_length n (x :: seg)) as L1.
      pose proof (length_firstn n (x :: seg)) as L2.
      repeat split.
      * cbn [readable]. rewrite <- E at 1.
        destruct (skipn n (x :: seg)); cbn [readable];
          rewrite <- ?app_assoc, ?app_nil_r; reflexivity.
      * rewrite L2. lia.
      * cbn [pending]. rewrite <- E at 1. rewrite length_app.
        destruct (skipn n (x :: seg)); simpl; lia.
      * intros Hc Hn. destruct n; [lia|]. discriminate.
      * destruct (skipn n (x :: seg)); reflexivity.
  - discriminate.
Qed.

Lemma take_chunk_faultless n inb :
  faultless inb = true -> exists c inb', take_chunk n inb = (OK c, inb').
Proof.
  induction inb as [|[seg|e] inb IH]; simpl; intros H.
  - eauto.
  - destruct seg; eauto.
  - discriminate.
Qed.

Lemma take_chunk_some n inb :
  (0 < n)%nat -> readable inb <> [] ->
  exists c inb', take_chunk n inb = (OK c, inb') /\ c <> [].
Proof.
  intros Hn. induction inb as [|[seg|e] inb IH]; simpl; intros H.
  - congruence.
  - destruct seg as [|x seg].
    + auto.
    + do 2 eexists. split; [reflexivity|]. destruct n; [lia|]. discriminate.
  - congruence.
Qed.

Lemma len_app {A} (l1 l2 : list A) : len (l1 ++ l2) = len l1 + len l2.
Proof. unfold len. rewrite length_app. lia. Qed.

Lemma len_nonneg {A} (l : list A) : 0 <= len l.
Proof. unfold len. lia. Qed.

Lemma recv_ok n s c s' :
  recv n s = (OK c, s') ->
  0 <= n /\ len c <= n /\
  readable (inbound s) = c ++ readable (inbound s') /\
  (pending (inbound s) = length c + pending (inbound s'))%nat /\
  (c = [] -> 0 < n -> inbound s' = []) /\
  faultless (inbound s') = faultless (inbound s) /\
  events s' = events s ++ [EvRecv n c] /\
  room s' = room s.
Proof.
  unfold recv. destruct (n <? 0) eqn:En; [discriminate|].
  apply Z.ltb_ge in En.
  destruct (take_chunk _ _) as [[c0|e] inb'] eqn:E; intros H;
    inversion H; subst; clear H.
  apply take_chunk_ok in E. destruct E as (E1 & E2 & E3 & E4 & E5).
  cbn [inbound events room]. unfold len.
  repeat split; auto; try lia.
  intros Hc Hn. apply E4; auto. lia.
Qed.

Lemma recv_loop_ok (k : nat) : forall s N r chunks chunks' s',
  (pending (inbound s) <= k)%nat ->
  r <= N ->
  recv_loop N r chunks s = (OK chunks', s') ->
  exists reads,
    chunks' = chunks ++ map snd reads /\
    len (concat (map snd reads)) = N - r /\
    readable (inbound s) = concat (map snd reads) ++ readable (inbound s') /\
    Forall bounded_read reads /\
    events s' = events s ++ map read_event reads /\
    room s' = room s.
Proof.
  induction k as [|k IH]; intros s N r chunks chunks' s' Hk Hr;
    rewrite recv_loop_step; destruct (r <? N) eqn:Elt;
    try (intros H; inversion H; subst; clear H;
         apply Z.ltb_ge in Elt; exists []; simpl;
         rewrite !app_nil_r; repeat split; auto; unfold len; simpl; lia).
  - destruct (recv _ s) as [[[|b bs]|e] s1] eqn:Er; try discriminate.
    apply recv_ok in Er. simpl in Er. lia.
  - apply Z.ltb_lt in Elt.
    destruct (recv _ s) as [[[|b bs]|e] s1] eqn:Er; try discriminate.
    intros H.
    pose proof (recv_ok _ _ Er) as (R1 & R2 & R3 & R4 & _ & _ & R7 & R8).
    apply IH in H; [| simpl in R4; lia | lia].
    destruct H as (reads & H1 & H2 & H3 & H4 & H5 & H6).
    exists ((Z.min (N - r) 2048, b :: bs) :: reads).
    cbn [map snd concat]. repeat split.
    + rewrite H1, <- app_assoc. reflexivity.
    + rewrite len_app. lia.
    + rewrite R3, H3, <- app_assoc. reflexivity.
    + constructor; auto. unfold bounded_read. cbn [fst snd].
      pose proof (len_nonneg bs). unfold len in *. simpl length in *. lia.
    + rewrite H5, R7, <- app_assoc. reflexivity.
    + congruence.
Qed.

Lemma wire_app evs evs' : wire (evs ++ evs') = wire evs ++ wire evs'.
Proof.
  induction evs as [|[] evs IH]; simpl; auto.
  rewrite IH, app_assoc. reflexivity.
Qed.

Lemma recv_faultless n s :
  0 <= n -> faultless (inbound s) = true ->
  exists c s', recv n s = (OK c, s').
Proof.
  intros Hn Hf. unfold recv.
  destruct (n <? 0) eqn:E; [apply Z.ltb_lt in E; lia|].
  destruct (take_chunk_faultless (Z.to_nat n) _ Hf) as (c & inb' & Ec).
  rewrite Ec. eauto.
Qed.

Lemma recv_loop_truncated (k : nat) : forall s N r chunks,
  (pending (inbound s) <= k)%nat ->
  faultless (inbound s) = true ->
  len (readable (inbound s)) < N - r ->
  exists s',
    recv_loop N r chunks s =
      (Raise (RuntimeError "socket connection broken"), s') /\
    wire (events s') = wire (events s) /\ room s' = room s.
Proof.
  induction k as [|k IH]; intros s N r chunks Hk Hf Hlen;
    pose proof (len_nonneg (readable (inbound s))) as Hpos;
    rewrite recv_loop_step;
    (destruct (r <? N) eqn:Elt; [|apply Z.ltb_ge in Elt; lia]);
    (destruct (@recv_faultless (Z.min (N - r) 2048) s) as (c & s1 & Er);
       [lia | assumption |]);
    rewrite Er;
    pose proof (recv_ok _ _ Er) as (R1 & R2 & R3 & R4 & _ & R6 & R7 & R8);
    destruct c as [|b bs].
  - eexists; split; [reflexivity|]. split; [|exact R8].
    rewrite R7, wire_app, app_nil_r. reflexivity.
  - simpl in R4. lia.
  - eexists; split; [reflexivity|]. split; [|exact R8].
    rewrite R7, wire_app, app_nil_r. reflexivity.
  - destruct (IH s1 N (r + len (b :: bs)) (chunks ++ [b :: bs]))
      as (s' & H1 & H2 & H3).
    + simpl in R4. lia.
    + congruence.
    + rewrite R3, len_app in Hlen. lia.
    + exists s'. split; [exact H1|]. split; [|congruence].
      rewrite H2, R7, wire_app, app_nil_r. reflexivity.
Qed.

Lemma recv_loop_enough (k : nat) : forall s N r chunks,
  (pending (inbound s) <= k)%nat ->
  r <= N ->
  N - r <= len (readable (inbound s)) ->
  exists chunks' s', recv_loop N r chunks s = (OK chunks', s').
Proof.
  induction k as [|k IH]; intros s N r chunks Hk Hr Hlen;
    rewrite recv_loop_step;
    (destruct (r <? N) eqn:Elt; [apply Z.ltb_lt in Elt|eauto]).
  all: destruct (@take_chunk_some (Z.to_nat (Z.min (N - r) 2048)) (inbound s))
         as (c & inb' & E & Hc);
       [lia
       |intros Hnil; rewrite Hnil in Hlen; unfold len in Hlen;
        simpl in Hlen; lia
       |].
  all: assert (Er : recv (Z.min (N - r) 2048) s =
                    (OK c, mkSocket inb' (room s)
                             (events s ++ [EvRecv (Z.min (N - r) 2048) c])))
         by (unfold recv; destruct (_ <? 0) eqn:E0;
             [apply Z.ltb_lt in E0; lia | rewrite E; reflexivity]).
  all: rewrite Er; destruct c as [|b bs]; [congruence|].
  all: apply recv_ok in Er as (R1 & R2 & R3 & R4 & _); cbn [inbound] in *.
  - simpl in R4. lia.
  - apply IH; cbn [inbound].
    + simpl in R4. lia.
    + lia.
    + rewrite R3, len_app in Hlen. lia.
Qed.

(** ** Reading a frame *)

Lemma unpack_I_inv h N :
  unpack_I h = OK N -> length h = 4%nat /\ 0 <= N < 2 ^ 32.
Proof.
  destruct h as [|b0 [|b1 [|b2 [|b3 [|? ?]]]]]; try discriminate.
  simpl. intros H. inversion H; subst; clear H. split; [reflexivity|].
  pose proof (byte_val_range b0). pose proof (byte_val_range b1).
  pose proof (byte_val_range b2). pose proof (byte_val_range b3).
  change (2 ^ 32) with 4294967296.
  change (2 ^ 24) with 16777216. change (2 ^ 16) with 65536.
  change (2 ^ 8) with 256. lia.
Qed.

Lemma recv_header s h p0 rest :
  inbound s = Data (h ++ p0) :: rest -> length h = 4%nat ->
  recv 4 s = (OK h, after_header s h p0 rest).
Proof.
  intros Hin Hh. unfold recv, after_header. rewrite Hin.
  destruct h as [|b0 [|b1 [|b2 [|b3 [|? ?]]]]]; try discriminate.
  destruct p0; reflexivity.
Qed.

Lemma readable_after_header s h p0 rest :
  readable (inbound (after_header s h p0 rest)) = p0 ++ readable rest.
Proof. destruct p0; reflexivity. Qed.

Lemma readFrame_header s h p0 rest N :
  inbound s = Data (h ++ p0) :: rest -> unpack_I h = OK N ->
  readFrame s =
  match recv_loop N 0 [] (after_header s h p0 rest) with
  | (OK chunks, s') => (OK (concat chunks), s')
  | (Raise e, s') => (Raise e, s')
  end.
Proof.
  intros Hin Hh. unfold readFrame, bind, lift.
  rewrite (recv_header s h p0 Hin (proj1 (unpack_I_inv _ Hh))).
  rewrite Hh. reflexivity.
Qed.

Lemma readFrame_ok_inv s data s' :
  readFrame s = (OK data, s') ->
  exists h reads,
    unpack_I h = OK (len data) /\
    readable (inbound s) = h ++ data ++ readable (inbound s') /\
    events s' = events s ++ EvRecv 4 h :: map read_event reads /\
    Forall bounded_read reads /\
    concat (map snd reads) = data /\
    room s' = room s.
Proof.
  unfold readFrame, bind, lift, ret.
  destruct (recv 4 s) as [[h|e] s1] eqn:Eh; [|discriminate].
  destruct (unpack_I h) as [N|e] eqn:EN; [|discriminate].
  destruct (recv_loop N 0 [] s1) as [[chunks|e] s2] eqn:El; [|discriminate].
  intros H. inversion H; subst; clear H.
  apply recv_ok in Eh as (_ & _ & R3 & _ & _ & _ & R7 & R8).
  pose proof (unpack_I_inv _ EN) as [_ HN].
  apply (@recv_loop_ok (pending (inbound s1))) in El; [|lia|lia].
  destruct El as (reads & H1 & H2 & H3 & H4 & H5 & H6).
  simpl in H1. subst chunks.
  exists h, reads. repeat split; auto.
  - rewrite H2, EN. f_equal. lia.
  - rewrite R3, H3. reflexivity.
  - rewrite H5, R7, <- app_assoc. reflexivity.
  - congruence.
Qed.

Lemma firstn_len_app {A} (l1 l2 : list A) N :
  len l1 = N -> firstn (Z.to_nat N) (l1 ++ l2) = l1.
Proof.
  unfold len. intros <-. rewrite Nat2Z.id.
  rewrite firstn_app, Nat.sub_diag, firstn_all. simpl. apply app_nil_r.
Qed.

Lemma readFrame_whole s h p0 rest N :
  inbound s = Data (h ++ p0) :: rest ->
  unpack_I h = OK N ->
  N <= len (p0 ++ readable rest) ->
  exists s' reads,
    readFrame s = (OK (firstn (Z.to_nat N) (p0 ++ readable rest)), s') /\
    readable (inbound s') = skipn (Z.to_nat N) (p0 ++ readable rest) /\
    events s' = events s ++ EvRecv 4 h :: map read_event reads /\
    Forall bounded_read reads /\
    concat (map snd reads) = firstn (Z.to_nat N) (p0 ++ readable rest) /\
    room s' = room s.
Proof.
  intros Hin Hh Hlen. rewrite (readFrame_header s h p0 Hin Hh).
  pose proof (unpack_I_inv _ Hh) as [_ HN].
  set (s1 := after_header s h p0 rest).
  destruct (@recv_loop_enough (pending (inbound s1)) s1 N 0 [])
    as (chunks & s' & El); [lia|lia| |].
  { unfold s1. rewrite readable_after_header. lia. }
  rewrite El.
  apply (@recv_loop_ok (pending (inbound s1))) in El; [|lia|lia].
  destruct El as (reads & H1 & H2 & H3 & H4 & H5 & H6).
  simpl in H1. subst chunks.
  unfold s1 in H3. rewrite readable_after_header in H3.
  assert (E : firstn (Z.to_nat N) (p0 ++ readable rest)
              = concat (map snd reads)).
  { rewrite H3. apply firstn_len_app. lia. }
  exists s', reads. rewrite E. repeat split; auto.
  - rewrite H3. rewrite skipn_app.
    replace (Z.to_nat N) with (length (concat (map snd reads)))
      by (unfold len in H2; lia).
    rewrite skipn_all, Nat.sub_diag. reflexivity.
  - rewrite H5. unfold s1, after_header. cbn [events].
    rewrite <- app_assoc. reflexivity.
Qed.

(** ** Traffic on a connection *)

Lemma traffic_refl s : traffic s s [].
Proof. exists []. rewrite app_nil_r. repeat split; auto. Qed.

Lemma traffic_trans s1 s2 s3 a b :
  traffic s1 s2 a -> traffic s2 s3 b -> traffic s1 s3 (a ++ b).
Proof.
  intros (e1 & H1 & F1 & W1) (e2 & H2 & F2 & W2).
  exists (e1 ++ e2). rewrite H2, H1, <- app_assoc, wire_app, W1, W2.
  repeat split; auto. apply Forall_app; auto.
Qed.

Lemma recv_traffic n s r s' : recv n s = (r, s') -> traffic s s' [].
Proof.
  unfold recv. destruct (n <? 0).
  - intros H. inversion H; subst. apply traffic_refl.
  - destruct (take_chunk _ _) as [[c|e] inb']; intros H; inversion H; subst;
      eexists; cbn [events]; repeat split; repeat constructor.
Qed.

Lemma recv_room n s r s' : recv n s = (r, s') -> room s' = room s.
Proof.
  unfold recv. destruct (n <? 0).
  - intros H. inversion H; subst. reflexivity.
  - destruct (take_chunk _ _) as [[c|e] inb']; intros H; inversion H; subst;
      reflexivity.
Qed.

Lemma recv_loop_traffic (k : nat) : forall s N r chunks res s',
  (pending (inbound s) <= k)%nat ->
  recv_loop N r chunks s = (res, s') ->
  traffic s s' [] /\ room s' = room s.
Proof.
  induction k as [|k IH]; intros s N r chunks res s' Hk;
    rewrite recv_loop_step; destruct (r <? N);
    try (intros H; inversion H; subst; split; [apply traffic_refl|reflexivity]);
    destruct (recv _ s) as [[[|b bs]|e] s1] eqn:Er;
    pose proof (recv_traffic _ _ Er) as T; pose proof (recv_room _ _ Er) as R;
    try (intros H; inversion H; subst; split; assumption).
  - apply recv_ok in Er. simpl in Er. lia.
  - intros H. apply recv_ok in Er as (_ & _ & _ & R4 & _).
    apply IH in H; [|simpl in R4; lia]. destruct H as [T' R'].
    split; [|congruence]. change (@nil byte) with (@nil byte ++ []).
    eapply traffic_trans; eauto.
Qed.

Lemma readFrame_traffic s r s' :
  readFrame s = (r, s') -> traffic s s' [] /\ room s' = room s.
Proof.
  unfold readFrame, bind, lift, ret.
  destruct (recv 4 s) as [[h|e] s1] eqn:Eh;
    pose proof (recv_traffic _ _ Eh) as T; pose proof (recv_room _ _ Eh) as R.
  2: { intros H; inversion H; subst; auto. }
  destruct (unpack_I h) as [N|e].
  2: { intros H; inversion H; subst; auto. }
  destruct (recv_loop N 0 [] s1) as [[chunks|e] s2] eqn:El;
    apply (@recv_loop_traffic (pending (inbound s1))) in El; auto;
    destruct El as [T' R']; intros H; inversion H; subst;
    (split; [|congruence]); change (@nil byte) with (@nil byte ++ []);
    eapply traffic_trans; eauto.
Qed.

(** ** Writing a frame *)

Lemma sendall_spec d s r s' :
  sendall d s = (r, s') ->
  exists sent,
    traffic s s' sent /\
    (r = OK tt -> sent = d) /\
    (forall e, r = Raise e ->
       e = OSError "Broken pipe" /\
       exists rest, rest <> [] /\ d = sent ++ rest).
Proof.
  unfold sendall. destruct (room s) as [n|].
  - destruct (length d <=? n)%nat eqn:E; intros H; inversion H; subst; clear H.
    + exists d. split; [|split; [auto|discriminate]].
      exists [EvSend d]. cbn [events wire]. rewrite app_nil_r.
      repeat split; repeat constructor.
    + apply Nat.leb_gt in E. exists (firstn n d).
      split; [|split; [discriminate|]].
      * exists [EvSend (firstn n d); EvSendFail (OSError "Broken pipe")].
        cbn [events wire]. rewrite app_nil_r.
        repeat split; repeat constructor.
      * intros e He. inversion He; subst. split; [reflexivity|].
        exists (skipn n d). split; [|symmetry; apply firstn_skipn].
        intros Hnil. pose proof (length_skipn n d) as L. rewrite Hnil in L.
        simpl in L. lia.
  - intros H; inversion H; subst; clear H. exists d.
    split; [|split; [auto|discriminate]].
    exists [EvSend d]. cbn [events wire log_event]. rewrite app_nil_r.
    repeat split; repeat constructor.
Qed.

Lemma writeFrame_spec p s r s' :
  writeFrame p s = (r, s') ->
  exists sent,
    traffic s s' sent /\
    (r = OK tt -> exists h, pack_I (len p) = OK h /\ sent = h ++ p) /\
    (forall e, r = Raise e ->
       sent = [] \/
       (e = OSError "Broken pipe" /\
        exists h rest,
          pack_I (len p) = OK h /\ rest <> [] /\ h ++ p = sent ++ rest)).
Proof.
  unfold writeFrame, bind, lift.
  destruct (pack_I (len p)) as [h|e0] eqn:Eh.
  2: { intros H; inversion H; subst. exists []. split; [apply traffic_refl|].
       split; [discriminate|auto]. }
  destruct (sendall h s) as [[[]|e1] s1] eqn:E1;
    apply sendall_spec in E1 as (sent1 & T1 & O1 & F1).
  - specialize (O1 eq_refl). subst sent1.
    intros E2. apply sendall_spec in E2 as (sent2 & T2 & O2 & F2).
    exists (h ++ sent2). split; [eapply traffic_trans; eauto|]. split.
    + intros ->. specialize (O2 eq_refl). subst. eauto.
    + intros e He. destruct (F2 e He) as (-> & rest & Hr & Hp). right.
      split; [reflexivity|]. exists h, rest. repeat split; auto.
      rewrite Hp, app_assoc. reflexivity.
  - intros H; inversion H; subst; clear H.
    destruct (F1 e1 eq_refl) as (-> & rest & Hr & Hp).
    exists sent1. split; [assumption|]. split; [discriminate|].
    intros e He. inversion He; subst. right. split; [reflexivity|].
    exists (sent1 ++ rest), (rest ++ p). repeat split; auto.
    + destruct rest; [congruence|discriminate].
    + rewrite <- app_assoc. reflexivity.
Qed.

(** ** The frame codec: round trip, truncation, header *)

Lemma pack_I_ok n : 0 <= n < 2 ^ 32 -> exists h, pack_I n = OK h.
Proof.
  intros [H0 H1]. unfold pack_I.
  apply Z.leb_le in H0. apply Z.ltb_lt in H1. rewrite H0, H1.
  simpl. eauto.
Qed.

Lemma writeFrame_unlimited b h s :
  room s = None -> pack_I (len b) = OK h ->
  writeFrame b s =
    (OK tt, mkSocket (inbound s) None (events s ++ [EvSend h; EvSend b])).
Proof.
  intros Hroom Hh. unfold writeFrame, bind, lift. rewrite Hh.
  unfold sendall at 1. rewrite Hroom.
  unfold sendall, log_event. cbn [room events inbound].
  rewrite Hroom, <- app_assoc. reflexivity.
Qed.

(** C3.  Frame round trip: for every byte string [b] of length at most
    65536, [writeFrame b] sends a 4-byte header that unpacks (unsigned,
    big-endian) to [len b], followed by [b]; and [readFrame] gets
    exactly [b] back, on a connection that receives what was sent and,
    more generally, however the bytes after the header are cut into
    runs and whatever follows the frame. *)
Theorem frame_round_trip (b : bytes) :
  len b <= 65536 ->
  exists h w,
    writeFrame b (fresh_socket [] None) = (OK tt, w) /\
    length h = 4%nat /\
    unpack_I h = OK (len b) /\
    wire (events w) = h ++ b /\
    (exists r,
       readFrame (fresh_socket (transmit (events w)) None) = (OK b, r)) /\
    (forall p0 rest more,
       p0 ++ readable rest = b ++ more ->
       exists r,
         readFrame (fresh_socket (Data (h ++ p0) :: rest) None) = (OK b, r) /\
         readable (inbound r) = more).
Proof.
  intros Hlen. pose proof (len_nonneg b) as Hpos.
  destruct (@pack_I_ok (len b)) as [h Hh].
  { change (2 ^ 32) with 4294967296. lia. }
  pose proof (unpack_pack_I _ Hh) as Hu.
  pose proof (unpack_I_inv _ Hu) as [H4 _].
  pose proof (@writeFrame_unlimited b h (fresh_socket [] None) eq_refl Hh)
    as Hw.
  cbn [fresh_socket inbound events app] in Hw.
  assert (Hany : forall p0 rest more,
             p0 ++ readable rest = b ++ more ->
             exists r,
               readFrame (fresh_socket (Data (h ++ p0) :: rest) None)
                 = (OK b, r) /\
               readable (inbound r) = more).
  { intros p0 rest more Hcut.
    destruct (@readFrame_whole
                (fresh_socket (Data (h ++ p0) :: rest) None) h p0 rest
                (len b) eq_refl Hu)
      as (r & reads & Hr & Hrest & _).
    { rewrite Hcut, len_app. pose proof (len_nonneg more). lia. }
    rewrite Hcut in Hr, Hrest. unfold len in Hr, Hrest.
    rewrite Nat2Z.id in Hr, Hrest.
    rewrite firstn_app, Nat.sub_diag, firstn_all, app_nil_r in Hr.
    rewrite skipn_app, Nat.sub_diag, skipn_all in Hrest.
    exists r. split; assumption. }
  exists h, (mkSocket [] None [EvSend h; EvSend b]).
  cbn [events transmit wire]. rewrite app_nil_r.
  repeat split; try assumption.
  destruct (Hany [] [Data b] []) as (r & Hr & _).
  { cbn [readable app]. reflexivity. }
  rewrite app_nil_r in Hr. exists r. exact Hr.
Qed.

Lemma frame_round_trip_witness :
  exists h w,
    writeFrame [x68; x69] (fresh_socket [] None) = (OK tt, w) /\
    length h = 4%nat /\
    unpack_I h = OK (len [x68; x69]) /\
    wire (events w) = h ++ [x68; x69] /\
    (exists r,
       readFrame (fresh_socket (transmit (events w)) None)
         = (OK [x68; x69], r)) /\
    (forall p0 rest more,
       p0 ++ readable rest = [x68; x69] ++ more ->
       exists r,
         readFrame (fresh_socket (Data (h ++ p0) :: rest) None)
           = (OK [x68; x69], r) /\
         readable (inbound r) = more).
Proof.
  apply (frame_round_trip [x68; x69]). vm_compute. discriminate.
Defined.

(** C4.  Truncation: when the header read announces [N] payload bytes
    and the peer closes after delivering fewer than [N], [readFrame]
    raises the "socket connection broken" error; and whenever
    [readFrame] does return a payload, that payload has exactly the
    length its header announced. *)
Theorem truncated_frame_detected (s s1 : Socket) (h : bytes) (N : Z) :
  recv 4 s = (OK h, s1) ->
  unpack_I h = OK N ->
  faultless (inbound s1) = true ->
  len (readable (inbound s1)) < N ->
  (exists s',
     readFrame s = (Raise (RuntimeError "socket connection broken"), s')) /\
  (forall t data t',
     readFrame t = (OK data, t') ->
     exists hd,
       unpack_I hd = OK (len data) /\
       readable (inbound t) = hd ++ data ++ readable (inbound t')).
Proof.
  intros Hrecv Hh Hf Hlen. split.
  - unfold readFrame, bind, lift. rewrite Hrecv, Hh.
    destruct (@recv_loop_truncated (pending (inbound s1)) s1 N 0 [])
      as (s' & El & _); [lia|assumption|lia|].
    rewrite El. eauto.
  - intros t data t' Hok.
    apply readFrame_ok_inv in Hok as (hd & reads & H1 & H2 & _). eauto.
Qed.

Lemma truncated_frame_detected_witness :
  (exists s',
     readFrame (fresh_socket [Data [x00; x00; x00; x05; x61; x62]] None)
     = (Raise (RuntimeError "socket connection broken"), s')) /\
  (forall t data t',
     readFrame t = (OK data, t') ->
     exists hd,
       unpack_I hd = OK (len data) /\
       readable (inbound t) = hd ++ data ++ readable (inbound t')).
Proof.
  apply (@truncated_frame_detected
           (fresh_socket [Data [x00; x00; x00; x05; x61; x62]] None)
           (mkSocket [Data [x61; x62]] None
                     [EvRecv 4 [x00; x00; x00; x05]])
           [x00; x00; x00; x05] 5);
    reflexivity.
Defined.

(** The header is read by one [recv(4)]: when the first run on the
    connection holds fewer than four bytes, those are all it gets and
    [struct.unpack] raises, whatever arrives next. *)
Lemma short_header_rejected s short rest :
  inbound s = Data short :: rest ->
  (0 < length short < 4)%nat ->
  readFrame s =
    (Raise (StructError "unpack requires a buffer of 4 bytes"),
     mkSocket rest (room s) (events s ++ [EvRecv 4 short])).
Proof.
  intros Hin Hlen. unfold readFrame, bind, recv. rewrite Hin.
  destruct short as [|b0 [|b1 [|b2 [|b3 tl]]]]; simpl in Hlen; try lia;
    reflexivity.
Qed.

(** C7.  A frame whose header reaches the worker in two pieces: the
    single [recv(4)] of line 52 returns the first two bytes only,
    [struct.unpack] raises, and neither the rest of the header nor
    the payload is read. *)
Theorem split_header_rejected :
  readFrame
    (fresh_socket
       [Data [x00; x00]; Data [x00; x05];
        Data [x68; x65; x6c; x6c; x6f]] None)
  = (Raise (StructError "unpack requires a buffer of 4 bytes"),
     mkSocket [Data [x00; x05]; Data [x68; x65; x6c; x6c; x6f]] None
              [EvRecv 4 [x00; x00]]).
Proof.
  apply (@short_header_rejected
           (fresh_socket
              [Data [x00; x00]; Data [x00; x05];
               Data [x68; x65; x6c; x6c; x6f]] None)
           [x00; x00]
           [Data [x00; x05]; Data [x68; x65; x6c; x6c; x6f]]).
  - reflexivity.
  - cbn [length]. lia.
Qed.

(** ** More on the frame codec *)

Lemma take_chunk_first_fault n inb c inb' :
  take_chunk n inb = (OK c, inb') -> first_fault inb' = first_fault inb.
Proof.
  revert c inb'. induction inb as [|[seg|e] inb IH]; intros c inb' H.
  - inversion H. reflexivity.
  - destruct seg as [|x seg]; cbn [take_chunk] in H.
    + cbn [first_fault]. eauto.
    + inversion H; subst. destruct (skipn n (x :: seg)); reflexivity.
  - discriminate.
Qed.

Lemma take_chunk_fault n inb e :
  first_fault inb = Some e -> readable inb = [] ->
  exists inb', take_chunk n inb = (Raise e, inb').
Proof.
  induction inb as [|[seg|e0] inb IH]; cbn [first_fault readable].
  - discriminate.
  - intros Hf Hr. apply app_eq_nil in Hr as [-> Hr]. cbn [take_chunk]. auto.
  - intros Hf _. inversion Hf; subst. cbn [take_chunk]. eauto.
Qed.

Lemma readable_pending inb : (length (readable inb) <= pending inb)%nat.
Proof.
  induction inb as [|[seg|e] inb IH]; cbn [readable pending].
  - reflexivity.
  - rewrite length_app. lia.
  - cbn [length]. lia.
Qed.

Lemma recv_loop_fault (k : nat) : forall s N r chunks e,
  (pending (inbound s) <= k)%nat ->
  first_fault (inbound s) = Some e ->
  len (readable (inbound s)) < N - r ->
  exists s',
    recv_loop N r chunks s = (Raise e, s') /\
    wire (events s') = wire (events s).
Proof.
  induction k as [|k IH]; intros s N r chunks e Hk Hf Hlen;
    pose proof (len_nonneg (readable (inbound s))) as Hpos;
    rewrite recv_loop_step;
    (destruct (r <? N) eqn:Elt; [|apply Z.ltb_ge in Elt; lia]);
    destruct (recv (Z.min (N - r) 2048) s) as [[[|b bs]|e0] s1] eqn:Er.
  all: try (pose proof (recv_ok _ _ Er) as (_ & _ & R3 & R4 & R5 & _ & R7 & _)).
  - (* b'' although a failure is still to come: impossible *)
    exfalso. rewrite R5 in R4 by (auto; lia).
    unfold recv in Er. destruct (_ <? 0); [discriminate|].
    destruct (take_chunk _ _) as [[c|e1] inb'] eqn:Et; inversion Er; subst.
    apply take_chunk_first_fault in Et. cbn [inbound] in *.
    rewrite R5 in Et by (auto; lia). rewrite Hf in Et. discriminate.
  - simpl in R4. lia.
  - (* the failure itself *)
    exists s1. split; [|].
    + unfold recv in Er. destruct (_ <? 0) eqn:E0;
        [apply Z.ltb_lt in E0; lia|].
      destruct (take_chunk _ _) as [[c|e1] inb'] eqn:Et; inversion Er; subst.
      assert (Hr : readable (inbound s) = []).
      { pose proof (readable_pending (inbound s)).
        destruct (readable (inbound s)); [reflexivity|simpl in *; lia]. }
      destruct (take_chunk_fault (Z.to_nat (Z.min (N - r) 2048)) _ Hf Hr)
        as (inb'' & Et'). rewrite Et in Et'. inversion Et'. reflexivity.
    + apply recv_traffic in Er as (evs & He & Hio & Hw).
      rewrite He, wire_app, Hw, app_nil_r. reflexivity.
  - exfalso. rewrite R5 in R4 by (auto; lia).
    unfold recv in Er. destruct (_ <? 0); [discriminate|].
    destruct (take_chunk _ _) as [[c|e1] inb'] eqn:Et; inversion Er; subst.
    apply take_chunk_first_fault in Et. cbn [inbound] in *.
    rewrite R5 in Et by (auto; lia). rewrite Hf in Et. discriminate.
  - destruct (IH s1 N (r + len (b :: bs)) (chunks ++ [b :: bs]) e)
      as (s' & H1 & H2).
    + simpl in R4. lia.
    + unfold recv in Er. destruct (_ <? 0); [discriminate|].
      destruct (take_chunk _ _) as [[c|e1] inb'] eqn:Et; inversion Er; subst.
      apply take_chunk_first_fault in Et. cbn [inbound]. congruence.
    + rewrite R3, len_app in Hlen. lia.
    + exists s'. split; [exact H1|].
      rewrite H2, R7, wire_app, app_nil_r. reflexivity.
  - (* a failure met by the loop is the first one *)
    exists s1. split.
    + unfold recv in Er. destruct (_ <? 0) eqn:E0;
        [apply Z.ltb_lt in E0; lia|].
      destruct (take_chunk _ _) as [[c|e1] inb'] eqn:Et; inversion Er; subst.
      clear - Et Hf. revert Et Hf.
      generalize (Z.to_nat (Z.min (N - r) 2048)). intros n.
      induction (inbound s) as [|[seg|e2] inb IHi];
        cbn [take_chunk first_fault].
      * discriminate.
      * destruct seg; [exact IHi|discriminate].
      * intros H1 H2. inversion H1; inversion H2; subst. reflexivity.
    + apply recv_traffic in Er as (evs & He & Hio & Hw).
      rewrite He, wire_app, Hw, app_nil_r. reflexivity.
Qed.

(** X1.  Once [recv(4)] has returned a header announcing [N] and the
    connection delivers at least [N] more bytes, [readFrame] returns
    exactly the next [N] bytes and leaves what follows unread; each
    read of the loop asks for between 1 and 2048 bytes and gets
    between 1 byte and what it asked for. *)
Theorem readFrame_takes_exactly_the_payload
    (s s1 : Socket) (h : bytes) (N : Z) :
  recv 4 s = (OK h, s1) ->
  unpack_I h = OK N ->
  N <= len (readable (inbound s1)) ->
  exists s' reads,
    readFrame s = (OK (firstn (Z.to_nat N) (readable (inbound s1))), s') /\
    readable (inbound s') = skipn (Z.to_nat N) (readable (inbound s1)) /\
    events s' = events s1 ++ map read_event reads /\
    Forall bounded_read reads /\
    concat (map snd reads) = firstn (Z.to_nat N) (readable (inbound s1)).
Proof.
  intros Hrecv Hh Hlen. pose proof (unpack_I_inv _ Hh) as [_ HN].
  unfold readFrame, bind, lift, ret. rewrite Hrecv, Hh.
  destruct (@recv_loop_enough (pending (inbound s1)) s1 N 0 [])
    as (chunks & s' & El); [lia|lia|lia|].
  rewrite El.
  apply (@recv_loop_ok (pending (inbound s1))) in El; [|lia|lia].
  destruct El as (reads & H1 & H2 & H3 & H4 & H5 & _).
  simpl in H1. subst chunks.
  assert (E : firstn (Z.to_nat N) (readable (inbound s1))
              = concat (map snd reads)).
  { rewrite H3. apply firstn_len_app. lia. }
  exists s', reads. rewrite E. repeat split; auto.
  rewrite H3 at 1. rewrite skipn_app.
  replace (Z.to_nat N) with (length (concat (map snd reads)))
    by (unfold len in H2; lia).
  rewrite skipn_all, Nat.sub_diag. reflexivity.
Qed.

(** X2.  When the header [recv(4)] returns anything but four bytes,
    nothing at all if the peer has already closed, [readFrame] raises
    [struct.error] and makes no further read. *)
Theorem header_of_wrong_length_rejected (s s1 : Socket) (h : bytes) :
  recv 4 s = (OK h, s1) ->
  length h <> 4%nat ->
  readFrame s =
    (Raise (StructError "unpack requires a buffer of 4 bytes"), s1).
Proof.
  intros Hrecv Hlen. unfold readFrame, bind, lift. rewrite Hrecv.
  destruct h as [|b0 [|b1 [|b2 [|b3 [|b4 tl]]]]]; try reflexivity.
  exfalso. apply Hlen. reflexivity.
Qed.

(** X3.  When the connection fails before the [N] announced bytes have
    arrived, [readFrame] raises that failure itself, not the
    broken-connection error, and nothing has been sent meanwhile. *)
Theorem recv_failure_ends_readFrame
    (s s1 : Socket) (h : bytes) (N : Z) (e : exn) :
  recv 4 s = (OK h, s1) ->
  unpack_I h = OK N ->
  first_fault (inbound s1) = Some e ->
  len (readable (inbound s1)) < N ->
  exists s',
    readFrame s = (Raise e, s') /\
    wire (events s') = wire (events s).
Proof.
  intros Hrecv Hh Hf Hlen. unfold readFrame, bind, lift. rewrite Hrecv, Hh.
  destruct (@recv_loop_fault (pending (inbound s1)) s1 N 0 [] e)
    as (s' & El & Hw); [lia|assumption|lia|].
  rewrite El. exists s'. split; [reflexivity|].
  rewrite Hw. apply recv_traffic in Hrecv as (evs & He & _ & Hwire).
  rewrite He, wire_app, Hwire, app_nil_r. reflexivity.
Qed.

(** X4.  A frame that [writeFrame] writes in full is two sends, a
    header that unpacks to the length of the payload and the payload
    itself; the length is below 2^32 and nothing is read. *)
Theorem written_frame_declares_its_length (p : bytes) (s s' : Socket) :
  writeFrame p s = (OK tt, s') ->
  exists h,
    unpack_I h = OK (len p) /\
    len p < 2 ^ 32 /\
    events s' = events s ++ [EvSend h; EvSend p] /\
    inbound s' = inbound s /\
    room s' = room_after (room s) (4 + length p).
Proof.
  unfold writeFrame, bind, lift.
  destruct (pack_I (len p)) as [h|e] eqn:Hh; [|discriminate].
  pose proof (unpack_pack_I _ Hh) as Hu.
  pose proof (unpack_I_inv _ Hu) as [H4 HN].
  unfold sendall. destruct (room s) as [k|] eqn:Hroom; cbn [room_after].
  - destruct (length h <=? k)%nat eqn:E1; [|discriminate].
    cbn [room inbound events].
    destruct (length p <=? k - length h)%nat eqn:E2; [|discriminate].
    intros H. inversion H; subst; clear H. exists h.
    cbn [events inbound room]. rewrite <- app_assoc, H4.
    repeat split; try assumption; try lia.
    f_equal. lia.
  - unfold log_event. cbn [room inbound events]. rewrite Hroom.
    intros H. inversion H; subst; clear H. exists h.
    cbn [events inbound room]. rewrite <- app_assoc.
    repeat split; try assumption; lia.
Qed.

(** ** The connection handler *)

Section ServerProperties.

Variable self_device : string.
Variable transformer_layers_split : list Layer.
Variable loads : bytes -> result PyVal.
Variable dumps : PyVal -> result bytes.
Variable cast_half : dtype -> list Z -> list Z.
Variable tensor_rows : Tensor -> result (list Tensor).
Variable tensor_bool : Tensor -> result bool.

Local Notation execute :=
  (execute self_device transformer_layers_split cast_half tensor_rows
     tensor_bool).
Local Notation process_frame :=
  (process_frame self_device transformer_layers_split loads dumps cast_half
     tensor_rows tensor_bool).
Local Notation reply_of :=
  (reply_of self_device transformer_layers_split loads dumps cast_half
     tensor_rows tensor_bool).
Local Notation handle_client :=
  (handle_client self_device transformer_layers_split loads dumps cast_half
     tensor_rows tensor_bool).

(** What the [try] block leaves behind. *)
Lemma try_block_spec s r s' :
  bind readFrame process_frame s = (r, s') ->
  exists sent,
    traffic s s' sent /\
    (r = OK tt ->
       exists p h, reply_of s p /\ pack_I (len p) = OK h /\ sent = h ++ p) /\
    (forall e, r = Raise e ->
       sent = [] \/
       (e = OSError "Broken pipe" /\
        exists p h rest,
          reply_of s p /\ pack_I (len p) = OK h /\
          rest <> [] /\ h ++ p = sent ++ rest)).
Proof.
  unfold bind at 1.
  destruct (readFrame s) as [[data|e0] s1] eqn:Er;
    pose proof (readFrame_traffic _ Er) as [T0 _].
  2: { intros H; inversion H; subst. exists []. split; [assumption|].
       split; [discriminate|auto]. }
  unfold process_frame, bind, lift.
  destruct (loads data) as [v|e1] eqn:El.
  2: { intros H; inversion H; subst. exists []. split; [assumption|].
       split; [discriminate|auto]. }
  destruct (execute v) as [[out|]|e2] eqn:Ex; cbn [read_local].
  2,3: intros H; inversion H; subst; exists []; (split; [assumption|]);
       (split; [discriminate|auto]).
  destruct (dumps (response_tuple out)) as [p|e3] eqn:Ed.
  2: { intros H; inversion H; subst. exists []. split; [assumption|].
       split; [discriminate|auto]. }
  assert (Hreply : reply_of s p) by (exists data, s1, v, out; auto).
  intros Hw. apply writeFrame_spec in Hw as (sent & T1 & O1 & F1).
  exists sent. split; [apply (traffic_trans T0 T1)|]. split.
  - intros Hr. destruct (O1 Hr) as (h & Hh & Hs). eauto.
  - intros e He. destruct (F1 e He) as [Hs|(He' & h & rest & Hh & Hrest & Hp)];
      [left; assumption|right]. split; [assumption|]. exists p, h, rest. auto.
Qed.

Lemma io_event_not_close evs : Forall io_event evs -> ~ In EvClose evs.
Proof.
  intros F Hin. rewrite Forall_forall in F. apply (F _ Hin).
Qed.

Lemma io_event_not_print evs line :
  Forall io_event evs -> ~ In (EvPrint line) evs.
Proof.
  intros F Hin. rewrite Forall_forall in F. apply (F _ Hin).
Qed.

Lemma handle_client_shape (s : Socket) :
  exists s' evs,
    handle_client s = (OK tt, s') /\
    events s' = events s ++ evs ++ [EvClose] /\
    ~ In EvClose evs.
Proof.
  unfold handle_client, try_except_finally.
  destruct (bind readFrame process_frame s) as [[[]|e] s1] eqn:Eb;
    apply try_block_spec in Eb as (sent & (evs & He & Hio & _) & _).
  - cbn [fst snd close]. eexists; exists evs. split; [reflexivity|].
    unfold log_event; cbn [events].
    split; [rewrite He, <- app_assoc; reflexivity|].
    apply io_event_not_close; assumption.
  - cbn [fst snd close print].
    eexists; exists (evs ++ [EvPrint (LogClientError e)]).
    split; [reflexivity|]. unfold log_event; cbn [events].
    split; [rewrite He, <- !app_assoc; reflexivity|].
    intros Hin. apply in_app_or in Hin as [Hin|[Hin|[]]];
      [revert Hin; apply io_event_not_close; assumption|discriminate].
Qed.

(** ** The layer loop and the reply (lines 67-106) *)

Local Notation unpack_request := (unpack_request tensor_rows).
Local Notation truthy := (truthy tensor_bool).
Local Notation iterate := (iterate tensor_rows).
Local Notation to_device_half := (to_device_half self_device cast_half).
Local Notation run_layers := (run_layers tensor_bool).

Lemma run_layers_app front back cm pids pkv oa uc cpos pe hs ndc :
  run_layers (front ++ back) cm pids pkv oa uc cpos pe hs ndc =
  rbind (run_layers front cm pids pkv oa uc cpos pe hs ndc)
        (fun mid =>
           run_layers back cm pids pkv oa uc cpos pe (fst mid) (snd mid)).
Proof.
  revert hs ndc. induction front as [|layer front IH]; intros hs ndc.
  - reflexivity.
  - cbn [app run_layers].
    destruct (layer _) as [outs|e]; [|reflexivity]. cbn [rbind].
    destruct (tuple_index outs 0) as [hs1|e]; [|reflexivity]. cbn [rbind].
    destruct (truthy uc) as [[|]|e]; cbn [rbind]; [| apply IH | reflexivity].
    destruct (truthy oa) as [b|e]; [|reflexivity]. cbn [rbind].
    destruct (tuple_index outs _) as [c|e]; [|reflexivity]. cbn [rbind].
    apply IH.
Qed.

(** Without [use_cache] no layer assigns [next_decoder_cache]. *)
Lemma run_layers_no_cache layers cm pids pkv oa uc cpos pe hs ndc hs' ndc' :
  truthy uc = OK false ->
  run_layers layers cm pids pkv oa uc cpos pe hs ndc = OK (hs', ndc') ->
  ndc' = ndc.
Proof.
  intros Huc. revert hs. induction layers as [|layer layers IH]; intros hs.
  - simpl. intros H. inversion H. reflexivity.
  - cbn [run_layers].
    destruct (layer _) as [outs|e]; [|discriminate]. cbn [rbind].
    destruct (tuple_index outs 0) as [hs1|e]; [|discriminate]. cbn [rbind].
    rewrite Huc. cbn [rbind]. apply IH.
Qed.

(** One step of the loop, run with [use_cache] set. *)
Lemma run_layers_last layer cm pids pkv oa uc cpos pe hs ndc hs' ndc' :
  run_layers [layer] cm pids pkv oa uc cpos pe hs ndc = OK (hs', ndc') ->
  truthy uc = OK true ->
  exists outs b c,
    layer (mkLayerCall hs cm pids pkv oa uc cpos pe) = OK outs /\
    tuple_index outs 0 = OK hs' /\
    truthy oa = OK b /\
    tuple_index outs (if b then 2 else 1)%nat = OK c /\
    ndc' = Some c.
Proof.
  cbn [run_layers]. intros H Huc.
  destruct (layer _) as [outs|e]; [|discriminate]. cbn [rbind] in H.
  destruct (tuple_index outs 0) as [hs1|e] eqn:E0; [|discriminate].
  cbn [rbind] in H. rewrite Huc in H. cbn [rbind] in H.
  destruct (truthy oa) as [b|e]; [|discriminate]. cbn [rbind] in H.
  destruct (tuple_index outs (if b then _ else _)) as [c|e] eqn:Ec;
    [|discriminate].
  cbn [rbind] in H. inversion H; subst. exists outs, b, c. auto.
Qed.

(** What a run of [execute] that assigns [output] went through. *)
Lemma execute_some_inv input_data out :
  execute input_data = OK (Some out) ->
  exists req hs pids cpos cmask tensors pe,
    unpack_request input_data = OK req /\
    to_device_half (hidden_states req) = OK hs /\
    to_device_half (position_ids req) = OK pids /\
    to_device_half (past_key_values req) = OK (out_past_key_values out) /\
    to_device_half (cache_position req) = OK cpos /\
    (if is_not_None (causal_mask req)
     then to_device_half (causal_mask req)
     else OK (causal_mask req)) = OK cmask /\
    is_not_None (position_embeddings req) = true /\
    iterate (position_embeddings req) = OK tensors /\
    result_map to_device_half tensors = OK pe /\
    run_layers transformer_layers_split cmask pids (out_past_key_values out)
      (output_attentions req) (use_cache req) cpos (PyTuple pe) hs None
    = OK (out_hidden_states out, Some (next_cache out)).
Proof.
  unfold execute.
  destruct (unpack_request input_data) as [req|e] eqn:E1;
    [|discriminate].
  cbn [rbind].
  destruct (to_device_half (hidden_states req)) as [hs|e] eqn:E2;
    [|discriminate].
  cbn [rbind].
  destruct (to_device_half (position_ids req)) as [pids|e] eqn:E3;
    [|discriminate].
  cbn [rbind].
  destruct (to_device_half (past_key_values req)) as [pkv|e] eqn:E4;
    [|discriminate].
  cbn [rbind].
  destruct (to_device_half (cache_position req)) as [cpos|e] eqn:E5;
    [|discriminate].
  cbn [rbind].
  destruct (if is_not_None (causal_mask req) then _ else _) as [cmask|e] eqn:E6;
    [|discriminate].
  cbn [rbind].
  destruct (is_not_None (position_embeddings req)) eqn:E7; [|discriminate].
  destruct (iterate (position_embeddings req)) as [tensors|e] eqn:E8;
    [|discriminate].
  cbn [rbind].
  destruct (result_map to_device_half tensors) as [pe|e] eqn:E9;
    [|discriminate].
  cbn [rbind].
  destruct (run_layers _ _ _ _ _ _ _ _ _ _) as [[hs' ndc]|e] eqn:Erun;
    [|discriminate].
  cbn [rbind fst snd].
  destruct ndc as [c|]; [|discriminate]. cbn [read_local rbind].
  intros H. inversion H; subst; clear H. cbn.
  exists req, hs, pids, cpos, cmask, tensors, pe. repeat split; auto.
Qed.

(** A request without [position_embeddings] never gets a reply
    assigned: the branch that builds [output] is skipped. *)
Lemma execute_without_position_embeddings input_data req :
  unpack_request input_data = OK req ->
  position_embeddings req = PyNone ->
  forall out, execute input_data <> OK (Some out).
Proof.
  intros Hreq Hpe out Hex.
  apply execute_some_inv in Hex
    as (req' & _ & _ & _ & _ & _ & _ & Hreq' & _ & _ & _ & _ & _ & Hnn & _).
  rewrite Hreq in Hreq'. inversion Hreq'; subst req'.
  rewrite Hpe in Hnn. discriminate.
Qed.

(** A request with [use_cache] unset never gets a reply assigned
    either: [next_decoder_cache] is read at line 106 without having
    been given a value. *)
Lemma execute_without_use_cache input_data req :
  unpack_request input_data = OK req ->
  truthy (use_cache req) = OK false ->
  forall out, execute input_data <> OK (Some out).
Proof.
  intros Hreq Huc out Hex.
  apply execute_some_inv in Hex
    as (req' & hs & pids & cpos & cmask & tensors & pe & Hreq' & _ & _ & _
        & _ & _ & _ & _ & _ & Hrun).
  rewrite Hreq in Hreq'. inversion Hreq'; subst req'.
  apply (run_layers_no_cache _ _ _ _ _ _ _ _ _ _ Huc) in Hrun. discriminate.
Qed.

(** With [use_cache] set, the reply carries the entry of the last
    layer, whatever the layers before it returned. *)
Lemma next_cache_last_layer_wins input_data req out front last :
  unpack_request input_data = OK req ->
  execute input_data = OK (Some out) ->
  transformer_layers_split = front ++ [last] ->
  truthy (use_cache req) = OK true ->
  exists call outs b,
    last call = OK outs /\
    truthy (output_attentions req) = OK b /\
    tuple_index outs (if b then 2 else 1)%nat = OK (next_cache out) /\
    tuple_index outs 0 = OK (out_hidden_states out).
Proof.
  intros Hreq Hex Hlayers Huc.
  apply execute_some_inv in Hex
    as (req' & hs & pids & cpos & cmask & tensors & pe & Hreq' & _ & _ & _
        & _ & _ & _ & _ & _ & Hrun).
  rewrite Hreq in Hreq'. inversion Hreq'; subst req'.
  rewrite Hlayers, run_layers_app in Hrun.
  destruct (run_layers front _ _ _ _ _ _ _ _ _) as [[hs1 ndc1]|e];
    [|discriminate].
  cbn [rbind fst snd] in Hrun.
  destruct (run_layers_last _ _ _ _ _ _ _ _ _ _ Hrun Huc)
    as (outs & b & c & Hcall & H0 & Hb & Hc & Hndc).
  inversion Hndc; subst c. eauto 8.
Qed.

(** A request for which [execute] assigns no [output] gets an error
    line and a closed connection, and not a byte in reply. *)
Lemma handle_client_unanswered s data s1 input_data :
  readFrame s = (OK data, s1) ->
  loads data = OK input_data ->
  (forall out, execute input_data <> OK (Some out)) ->
  exists e,
    handle_client s =
      (OK tt,
       mkSocket (inbound s1) (room s1)
         (events s1 ++ [EvPrint (LogClientError e); EvClose])) /\
    (execute input_data = OK None -> e = UnboundLocalError "output") /\
    (forall e', execute input_data = Raise e' -> e = e').
Proof.
  intros Hread Hload Hnone.
  assert (Hbody : exists e,
             bind readFrame (fun d => process_frame d) s = (Raise e, s1) /\
             (execute input_data = OK None ->
              e = UnboundLocalError "output") /\
             (forall e', execute input_data = Raise e' -> e = e')).
  { unfold bind at 1. rewrite Hread.
    unfold process_frame, bind, lift. rewrite Hload.
    destruct (execute input_data) as [[out|]|e'].
    - destruct (Hnone out eq_refl).
    - exists (UnboundLocalError "output"). cbn [read_local].
      split; [reflexivity|]. split; [reflexivity|discriminate].
    - exists e'. split; [reflexivity|]. split; [discriminate|].
      intros e'' He''. congruence. }
  destruct Hbody as (e & Hb & Hnone' & Hraise).
  exists e. split; [|split; assumption].
  unfold handle_client, try_except_finally. rewrite Hb.
  cbn [print close fst snd]. unfold log_event. cbn [events inbound room].
  rewrite <- app_assoc. reflexivity.
Qed.

(** The reply echoes [past_key_values] as line 74 left it: moved to
    the worker's device and cast to half precision. *)
Lemma past_key_values_echo input_data req out :
  unpack_request input_data = OK req ->
  execute input_data = OK (Some out) ->
  exists t,
    past_key_values req = PyTensor t /\
    out_past_key_values out =
      PyTensor (tensor_half cast_half (tensor_to self_device t)).
Proof.
  intros Hreq Hex.
  apply execute_some_inv in Hex
    as (req' & _ & _ & _ & _ & _ & _ & Hreq' & _ & _ & Hpkv & _).
  rewrite Hreq in Hreq'. inversion Hreq'; subst req'.
  destruct (past_key_values req) as [| |t|]; try discriminate.
  exists t. split; [reflexivity|]. simpl in Hpkv. congruence.
Qed.

(** ** The listener *)

Local Notation conn_events :=
  (conn_events self_device transformer_layers_split loads dumps cast_half
     tensor_rows tensor_bool).
Local Notation outcome_events :=
  (outcome_events self_device transformer_layers_split loads dumps cast_half
     tensor_rows tensor_bool).
Local Notation accept_loop :=
  (accept_loop self_device transformer_layers_split loads dumps cast_half
     tensor_rows tensor_bool).
Local Notation listen_once :=
  (listen_once self_device transformer_layers_split loads dumps cast_half
     tensor_rows tensor_bool).
Local Notation failed_pass :=
  (failed_pass self_device transformer_layers_split loads dumps cast_half
     tensor_rows tensor_bool).
Local Notation start_server :=
  (start_server self_device transformer_layers_split loads dumps cast_half
     tensor_rows tensor_bool).

Lemma handle_client_returns s : fst (handle_client s) = OK tt.
Proof.
  destruct (handle_client_shape s) as (s' & evs & H & _).
  rewrite H. reflexivity.
Qed.

(** Every connection's part of the trace runs from its accept to the
    closing of its socket. *)
Lemma conn_events_shape addr inb r :
  exists evs,
    ~ In EvClose evs /\
    conn_events addr inb r =
      SvAccept addr :: SvPrint (LogAccepted addr)
      :: map (SvConn addr) (evs ++ [EvClose]).
Proof.
  unfold conn_events.
  destruct (handle_client_shape (fresh_socket inb r))
    as (s' & evs & H & Hev & Hnc).
  rewrite H. cbn [snd]. rewrite Hev. exists evs. split; [assumption|].
  reflexivity.
Qed.

Lemma accept_loop_app pre post :
  forallb accepted pre = true ->
  accept_loop (pre ++ post) =
    (flat_map outcome_events pre ++ fst (accept_loop post),
     snd (accept_loop post)).
Proof.
  induction pre as [|[addr inb r|e] pre IH]; intros Hacc.
  - simpl. destruct (accept_loop post). reflexivity.
  - cbn [app accept_loop flat_map outcome_events].
    rewrite handle_client_returns, IH by exact Hacc.
    rewrite <- app_assoc. reflexivity.
  - discriminate.
Qed.

Lemma accept_loop_end accs :
  snd (accept_loop accs) =
    match accept_failure accs with
    | Some e => Failed e
    | None => Waiting
    end.
Proof.
  induction accs as [|[addr inb r|e] accs IH]; try reflexivity.
  cbn [accept_loop accept_failure].
  rewrite handle_client_returns.
  destruct (accept_loop accs). exact IH.
Qed.

Lemma listen_once_end a :
  snd (listen_once a) =
    match listener_failure a with
    | Some e => Failed e
    | None => Waiting
    end.
Proof.
  unfold listen_once, listener_failure.
  destruct (setup_failure a) as [[[] e]|]; try reflexivity.
  rewrite <- accept_loop_end. destruct (accept_loop (accepts a)).
  reflexivity.
Qed.

Lemma start_server_app fails rest :
  Forall (fun a => listener_failure a <> None) fails ->
  start_server (fails ++ rest) =
    (flat_map failed_pass fails ++ fst (start_server rest),
     snd (start_server rest)).
Proof.
  induction 1 as [|a fails Ha _ IH].
  - simpl. destruct (start_server rest). reflexivity.
  - cbn [app start_server flat_map]. unfold failed_pass.
    pose proof (listen_once_end a) as He.
    destruct (listen_once a) as [evs fin]. cbn [fst snd] in *.
    destruct (listener_failure a) as [e|]; [|congruence]. subst fin.
    rewrite IH. cbn [fst snd]. rewrite <- !app_assoc. reflexivity.
Qed.

(** ** The claims about the handler and the listener *)

(** C5 (as amended).  When a request is answered, the reply's
    [past_key_values] is the request's tensor after line 74 has moved
    it to the worker's device and cast it to half precision; nothing
    else changes it on the way to line 106. *)
Theorem past_key_values_echoed_after_conversion
    (input_data : PyVal) (req : Request) (out : Response) :
  unpack_request input_data = OK req ->
  execute input_data = OK (Some out) ->
  exists t,
    past_key_values req = PyTensor t /\
    out_past_key_values out =
      PyTensor (mkTensor self_device Float16
                  (cast_half (t_dtype t) (t_data t))).
Proof.
  intros Hreq Hex.
  destruct (past_key_values_echo _ Hreq Hex) as (t & Ht & Hout).
  exists t. split; [exact Ht|]. rewrite Hout. reflexivity.
Qed.

(** C6 (as amended).  Whatever happens while a connection is handled,
    [handle_client] returns normally, and the last thing it does is
    close the socket, once.  Either no error was logged and the peer
    got the complete reply frame; or an error was logged and the peer
    got nothing at all, unless the error is the failure of a
    [sendall] of the reply, in which case the peer got a proper
    prefix of the reply frame. *)
Theorem exceptions_contained_and_socket_closed (s : Socket) :
  exists s' evs,
    handle_client s = (OK tt, s') /\
    events s' = events s ++ evs ++ [EvClose] /\
    ~ In EvClose evs /\
    ((forall e, ~ In (EvPrint (LogClientError e)) evs) /\
     (exists p h,
        reply_of s p /\ pack_I (len p) = OK h /\ wire evs = h ++ p)
     \/
     (exists e,
        In (EvPrint (LogClientError e)) evs /\
        (wire evs = [] \/
         (e = OSError "Broken pipe" /\
          exists p h rest,
            reply_of s p /\ pack_I (len p) = OK h /\
            rest <> [] /\ h ++ p = wire evs ++ rest)))).
Proof.
  unfold handle_client, try_except_finally.
  destruct (bind readFrame process_frame s) as [[[]|e] s1] eqn:Eb;
    apply try_block_spec in Eb as (sent & (evs & He & Hio & Hw) & Hok & Hfail).
  - cbn [fst snd close log_event events].
    eexists; exists evs. split; [reflexivity|].
    unfold log_event; cbn [events].
    split; [rewrite He, <- app_assoc; reflexivity|].
    split; [apply io_event_not_close; assumption|]. left. split.
    + intros e. apply io_event_not_print; assumption.
    + destruct (Hok eq_refl) as (p & h & Hr & Hh & Hs). exists p, h.
      rewrite Hw. auto.
  - cbn [print fst snd close log_event events].
    eexists; exists (evs ++ [EvPrint (LogClientError e)]).
    split; [reflexivity|]. unfold log_event; cbn [events].
    split; [rewrite He, <- !app_assoc; reflexivity|].
    split.
    { intros Hin. apply in_app_or in Hin as [Hin|[Hin|[]]];
        [revert Hin; apply io_event_not_close; assumption|discriminate]. }
    right. exists e. split; [apply in_or_app; right; left; reflexivity|].
    rewrite wire_app, app_nil_r, Hw.
    destruct (Hfail e eq_refl)
      as [Hs|(He' & p & h & rest & Hr & Hh & Hrest & Hp)];
      [left; assumption|right]. split; [assumption|]. exists p, h, rest. auto.
Qed.

(** C8.  Serial handling: if connection A is accepted before
    connection B in a pass of the accept loop, then in the server's
    trace everything A's handler does, up to and including the closing
    of A's socket, comes before B's accept, and so before any read of
    B's request. *)
Theorem connections_handled_one_at_a_time
    (pre mid post : list accept_outcome)
    (a : nat) (ia : list arrival) (ra : option nat)
    (b : nat) (ib : list arrival) (rb : option nat) :
  forallb accepted (pre ++ mid) = true ->
  exists evA evB,
    ~ In EvClose evA /\ ~ In EvClose evB /\
    fst (accept_loop
           (pre ++ Accepted a ia ra :: mid ++ Accepted b ib rb :: post)) =
      flat_map outcome_events pre
      ++ (SvAccept a :: SvPrint (LogAccepted a)
          :: map (SvConn a) (evA ++ [EvClose]))
      ++ flat_map outcome_events mid
      ++ (SvAccept b :: SvPrint (LogAccepted b)
          :: map (SvConn b) (evB ++ [EvClose]))
      ++ fst (accept_loop post).
Proof.
  intros Hacc. rewrite forallb_app in Hacc.
  apply andb_prop in Hacc as [Hpre Hmid].
  destruct (conn_events_shape a ia ra) as (evA & HnA & HA).
  destruct (conn_events_shape b ib rb) as (evB & HnB & HB).
  exists evA, evB. split; [exact HnA|]. split; [exact HnB|].
  rewrite accept_loop_app by exact Hpre. cbn [fst].
  change (Accepted a ia ra :: mid ++ Accepted b ib rb :: post)
    with ([Accepted a ia ra] ++ mid ++ Accepted b ib rb :: post).
  rewrite (accept_loop_app [Accepted a ia ra]) by reflexivity. cbn [fst].
  rewrite accept_loop_app by exact Hmid. cbn [fst].
  change (Accepted b ib rb :: post) with ([Accepted b ib rb] ++ post).
  rewrite (accept_loop_app [Accepted b ib rb]) by reflexivity. cbn [fst].
  cbn [flat_map outcome_events]. rewrite !app_nil_r, HA, HB.
  reflexivity.
Qed.

(** C9.  Restart on listener failure: after any number of passes that
    each end in a listener-level error (socket, setsockopt, bind or
    listen failing, or accept failing), the server has printed, for
    each, the error and its traceback, and goes on exactly as a
    freshly started server would on what follows; every such pass is
    followed at once by the next one, and none of them ends the run. *)
Theorem supervisor_restarts_after_listener_failure
    (fails rest : list attempt) :
  Forall (fun a => listener_failure a <> None) fails ->
  start_server (fails ++ rest) =
    (flat_map failed_pass fails ++ fst (start_server rest),
     snd (start_server rest)) /\
  Forall (fun a =>
            exists e,
              snd (listen_once a) = Failed e /\
              failed_pass a =
                fst (listen_once a)
                ++ [SvPrint (LogServerError e); SvPrint LogTracebackHeader;
                    SvPrint (LogTraceback e)])
         fails.
Proof.
  intros Hfails. split; [apply start_server_app; exact Hfails|].
  eapply Forall_impl; [|exact Hfails].
  intros a Ha. cbv beta in Ha. unfold failed_pass.
  rewrite listen_once_end.
  destruct (listener_failure a) as [e|]; [|congruence].
  exists e. split; reflexivity.
Qed.

(** C10.  A frame whose header announces length 0: [readFrame] makes
    the header read and no other, returns the empty byte string, and
    the handler goes on to decode that empty payload. *)
Theorem zero_length_frame_is_valid (s s1 : Socket) (h : bytes) :
  recv 4 s = (OK h, s1) ->
  unpack_I h = OK 0 ->
  readFrame s = (OK [], s1) /\
  events s1 = events s ++ [EvRecv 4 h] /\
  handle_client s =
    try_except_finally (process_frame [])
      (fun e => print (LogClientError e)) close s1.
Proof.
  intros Hrecv Hh.
  assert (Hread : readFrame s = (OK [], s1)).
  { unfold readFrame, bind, lift. rewrite Hrecv, Hh, recv_loop_step.
    reflexivity. }
  split; [exact Hread|]. split.
  - apply recv_ok in Hrecv. tauto.
  - unfold handle_client, try_except_finally, bind.
    rewrite Hread. reflexivity.
Qed.

(** ** More on the handler *)

Lemma sendall_inbound d s r s' :
  sendall d s = (r, s') -> inbound s' = inbound s.
Proof.
  unfold sendall. destruct (room s) as [k|].
  - destruct (length d <=? k)%nat; intros H; inversion H; reflexivity.
  - intros H; inversion H; reflexivity.
Qed.

Lemma writeFrame_inbound p s r s' :
  writeFrame p s = (r, s') -> inbound s' = inbound s.
Proof.
  unfold writeFrame, bind, lift.
  destruct (pack_I (len p)) as [h|e]; [|intros H; inversion H; reflexivity].
  destruct (sendall h s) as [[[]|e] s1] eqn:E1; apply sendall_inbound in E1.
  - intros E2. apply sendall_inbound in E2. congruence.
  - intros H; inversion H; subst. exact E1.
Qed.

Lemma process_frame_inbound data s r s' :
  process_frame data s = (r, s') -> inbound s' = inbound s.
Proof.
  unfold process_frame, bind, lift.
  destruct (loads data) as [v|e]; [|intros H; inversion H; reflexivity].
  destruct (execute v) as [o|e]; [|intros H; inversion H; reflexivity].
  destruct (read_local "output" o) as [out|e];
    [|intros H; inversion H; reflexivity].
  destruct (dumps (response_tuple out)) as [p|e];
    [|intros H; inversion H; reflexivity].
  apply writeFrame_inbound.
Qed.

(** The handler's outcome once the [try] block has raised. *)
Lemma handle_client_after_raise s e s1 :
  bind readFrame (fun d => process_frame d) s = (Raise e, s1) ->
  handle_client s =
    (OK tt,
     mkSocket (inbound s1) (room s1)
       (events s1 ++ [EvPrint (LogClientError e); EvClose])).
Proof.
  intros Hb. unfold handle_client, try_except_finally.
  rewrite Hb. cbn [print close fst snd]. unfold log_event.
  cbn [events inbound room]. rewrite <- app_assoc. reflexivity.
Qed.

(** X5.  An error raised while the frame is read (a short header, a
    closed or failing connection) is the error the handler logs; not
    a byte is sent, and the socket is closed. *)
Theorem read_failure_logged_and_unanswered (s s1 : Socket) (e : exn) :
  readFrame s = (Raise e, s1) ->
  handle_client s =
    (OK tt,
     mkSocket (inbound s1) (room s1)
       (events s1 ++ [EvPrint (LogClientError e); EvClose])) /\
  wire (events s1 ++ [EvPrint (LogClientError e); EvClose])
    = wire (events s).
Proof.
  intros Hread. split.
  - apply handle_client_after_raise. unfold bind. rewrite Hread. reflexivity.
  - apply readFrame_traffic in Hread as [(evs & He & _ & Hw) _].
    rewrite He, !wire_app, Hw. cbn [wire]. rewrite !app_nil_r. reflexivity.
Qed.

(** X6.  The first error met between unpickling the payload and
    pickling the reply (lines 65-111) is the error the handler logs;
    the connection is closed with no reply, and nothing has been read
    beyond the frame. *)
Theorem failure_before_reply_logged_and_unanswered
    (s s1 : Socket) (data : bytes) (e : exn) :
  readFrame s = (OK data, s1) ->
  (input_data <- loads data ;;
   output <- execute input_data ;;
   out <- read_local "output" output ;;
   dumps (response_tuple out))%res = Raise e ->
  handle_client s =
    (OK tt,
     mkSocket (inbound s1) (room s1)
       (events s1 ++ [EvPrint (LogClientError e); EvClose])).
Proof.
  intros Hread Hpipe. apply handle_client_after_raise.
  unfold bind at 1. rewrite Hread.
  unfold process_frame, bind, lift.
  destruct (loads data) as [v|e1]; cbn [rbind] in Hpipe;
    [|inversion Hpipe; reflexivity].
  destruct (execute v) as [o|e2]; cbn [rbind] in Hpipe;
    [|inversion Hpipe; reflexivity].
  destruct (read_local "output" o) as [out|e3]; cbn [rbind] in Hpipe;
    [|inversion Hpipe; reflexivity].
  rewrite Hpipe. reflexivity.
Qed.

(** X7.  A request that is read, decoded, executed and encoded, from a
    peer that takes the whole reply, is answered by exactly two sends,
    the 4-byte length and the pickled reply, after which the socket
    is closed; no error line is printed. *)
Theorem answered_request_gets_one_frame
    (s s1 : Socket) (data p h : bytes) :
  readFrame s = (OK data, s1) ->
  (input_data <- loads data ;;
   output <- execute input_data ;;
   out <- read_local "output" output ;;
   dumps (response_tuple out))%res = OK p ->
  pack_I (len p) = OK h ->
  takes (room s) (4 + length p) = true ->
  handle_client s =
    (OK tt,
     mkSocket (inbound s1) (room_after (room s) (4 + length p))
       (events s1 ++ [EvSend h; EvSend p; EvClose])).
Proof.
  intros Hread Hpipe Hh Htakes.
  pose proof (unpack_I_inv _ (unpack_pack_I _ Hh)) as [H4 _].
  pose proof (readFrame_traffic _ Hread) as [_ Hroom].
  assert (Hw : writeFrame p s1 =
               (OK tt,
                mkSocket (inbound s1) (room_after (room s) (4 + length p))
                  (events s1 ++ [EvSend h; EvSend p]))).
  { unfold writeFrame, bind, lift. rewrite Hh. unfold sendall.
    rewrite Hroom. destruct (room s) as [k|]; cbn [takes room_after] in *.
    - apply Nat.leb_le in Htakes.
      replace (length h <=? k)%nat with true
        by (symmetry; apply Nat.leb_le; lia).
      cbn [room inbound events].
      replace (length p <=? k - length h)%nat with true
        by (symmetry; apply Nat.leb_le; lia).
      rewrite <- app_assoc, H4. do 3 f_equal. lia.
    - unfold log_event. cbn [room inbound events]. rewrite Hroom.
      rewrite <- app_assoc. reflexivity. }
  assert (Hb : bind readFrame (fun d => process_frame d) s =
               (OK tt,
                mkSocket (inbound s1) (room_after (room s) (4 + length p))
                  (events s1 ++ [EvSend h; EvSend p]))).
  { unfold bind at 1. rewrite Hread.
    unfold process_frame, bind, lift.
    destruct (loads data) as [v|e1]; cbn [rbind] in Hpipe; [|discriminate].
    destruct (execute v) as [o|e2]; cbn [rbind] in Hpipe; [|discriminate].
    destruct (read_local "output" o) as [out|e3]; cbn [rbind] in Hpipe;
      [|discriminate].
    rewrite Hpipe. exact Hw. }
  unfold handle_client, try_except_finally. rewrite Hb.
  cbn [close fst snd]. unfold log_event. cbn [events inbound room].
  rewrite <- app_assoc. reflexivity.
Qed.

(** X8.  One request per connection: whatever the outcome, the handler
    reads nothing beyond what reading one frame takes off the
    connection. *)
Theorem handler_reads_one_frame_only (s : Socket) :
  inbound (snd (handle_client s)) = inbound (snd (readFrame s)).
Proof.
  unfold handle_client, try_except_finally.
  destruct (bind readFrame (fun d => process_frame d) s) as [[[]|e] s2] eqn:Hb;
    cbn [print close fst snd log_event inbound];
    unfold bind in Hb;
    destruct (readFrame s) as [[data|e0] s1];
    try (inversion Hb; subst; reflexivity);
    apply process_frame_inbound in Hb; exact Hb.
Qed.

(** ** More on the layer loop *)

(** A loop that ends with [next_decoder_cache] assigned ran at least
    one layer with [use_cache] set. *)
Lemma run_layers_cache_assigned layers cm pids pkv oa uc cpos pe hs hs' c :
  run_layers layers cm pids pkv oa uc cpos pe hs None = OK (hs', Some c) ->
  layers <> [] /\ truthy uc = OK true.
Proof.
  intros Hrun. destruct layers as [|layer rest]; [discriminate|].
  split; [discriminate|].
  destruct (truthy uc) as [[|]|e] eqn:Huc; [reflexivity| |].
  - apply (run_layers_no_cache _ _ _ _ _ _ _ _ _ _ Huc) in Hrun.
    discriminate.
  - cbn [run_layers] in Hrun.
    destruct (layer _) as [outs|e0]; [|discriminate]. cbn [rbind] in Hrun.
    destruct (tuple_index outs 0) as [hs1|e0]; [|discriminate].
    cbn [rbind] in Hrun. rewrite Huc in Hrun. discriminate.
Qed.

(** X9.  The loop over a shard is the loop over any prefix of it
    followed by the loop over the rest, started from the hidden state
    and the cache entry the prefix ends with. *)
Theorem layer_loop_composes
    (front back : list Layer) (cm pids pkv oa uc cpos pe hs : PyVal)
    (ndc : option PyVal) :
  run_layers (front ++ back) cm pids pkv oa uc cpos pe hs ndc =
  match run_layers front cm pids pkv oa uc cpos pe hs ndc with
  | OK (hs1, ndc1) => run_layers back cm pids pkv oa uc cpos pe hs1 ndc1
  | Raise e => Raise e
  end.
Proof.
  rewrite run_layers_app.
  destruct (run_layers front _ _ _ _ _ _ _ _ _) as [[hs1 ndc1]|e];
    reflexivity.
Qed.

(** X10.  A layer that raises ends the loop with its error, whatever
    layers come after it. *)
Theorem failing_layer_aborts_the_loop
    (front rest : list Layer) (bad : Layer)
    (cm pids pkv oa uc cpos pe hs hs1 : PyVal) (ndc ndc1 : option PyVal)
    (e : exn) :
  run_layers front cm pids pkv oa uc cpos pe hs ndc = OK (hs1, ndc1) ->
  bad (mkLayerCall hs1 cm pids pkv oa uc cpos pe) = Raise e ->
  run_layers (front ++ bad :: rest) cm pids pkv oa uc cpos pe hs ndc
    = Raise e.
Proof.
  intros Hfront Hbad. rewrite run_layers_app, Hfront.
  cbn [rbind fst snd run_layers]. rewrite Hbad. reflexivity.
Qed.

(** X11.  With [use_cache] set, a layer whose tuple is too short to
    hold a cache entry (index 2 with [output_attentions], index 1
    without) ends the loop with [IndexError]. *)
Theorem short_layer_output_rejected
    (layer : Layer) (rest : list Layer) (outs : list PyVal)
    (cm pids pkv oa uc cpos pe hs : PyVal) (ndc : option PyVal) (b : bool) :
  layer (mkLayerCall hs cm pids pkv oa uc cpos pe) = OK outs ->
  truthy uc = OK true ->
  truthy oa = OK b ->
  (length outs <= (if b then 2 else 1))%nat ->
  run_layers (layer :: rest) cm pids pkv oa uc cpos pe hs ndc
    = Raise (IndexError "tuple index out of range").
Proof.
  intros Hcall Huc Hoa Hlen. cbn [run_layers]. rewrite Hcall. cbn [rbind].
  unfold tuple_index at 1.
  destruct (nth_error outs 0) as [hs1|] eqn:E0; [|reflexivity].
  cbn [rbind]. rewrite Huc. cbn [rbind]. rewrite Hoa. cbn [rbind].
  unfold tuple_index.
  replace (nth_error outs (if b then 2 else 1)%nat) with (@None PyVal)
    by (symmetry; apply nth_error_None; exact Hlen).
  reflexivity.
Qed.


(** X13.  In every reply, [hidden_states] and [next_cache] are items
    of the tuple the last layer returned: item 0, and item 2 or 1
    according to [output_attentions]. *)
Theorem reply_comes_from_last_layer
    (input_data : PyVal) (req : Request) (out : Response) :
  unpack_request input_data = OK req ->
  execute input_data = OK (Some out) ->
  exists front last call outs b,
    transformer_layers_split = front ++ [last] /\
    last call = OK outs /\
    truthy (output_attentions req) = OK b /\
    tuple_index outs 0 = OK (out_hidden_states out) /\
    tuple_index outs (if b then 2 else 1)%nat = OK (next_cache out).
Proof.
  intros Hreq Hex. pose proof Hex as Hex'.
  apply execute_some_inv in Hex'
    as (req' & hs & pids & cpos & cmask & tensors & pe & Hreq' & _ & _ & _
        & _ & _ & _ & _ & _ & Hrun).
  rewrite Hreq in Hreq'. inversion Hreq'; subst req'.
  apply run_layers_cache_assigned in Hrun as [Hne Huc].
  destruct (exists_last Hne) as (front & last & Hsplit).
  edestruct next_cache_last_layer_wins
    as (call & outs & b & Hcall & Hb & Hc & H0);
    [exact Hreq | exact Hex | exact Hsplit | exact Huc |].
  exists front, last, call, outs, b. auto.
Qed.

(** X14.  A payload that unpickles to a tuple of any length but 8 is
    refused at the unpacking of line 69 with [ValueError]. *)
Theorem wrong_arity_rejected (items : list PyVal) :
  length items <> 8%nat ->
  execute (PyTuple items) =
    Raise (ValueError "wrong number of values to unpack (expected 8)").
Proof.
  intros Hlen. unfold execute, unpack_request, iterate. cbn [rbind].
  destruct items as [|a [|b [|c [|d [|e [|f [|g [|h [|i tl]]]]]]]]];
    try reflexivity.
  exfalso. apply Hlen. reflexivity.
Qed.


(** X16.  What the first layer is called with: the four tensor fields
    and the items of [position_embeddings] moved to the worker's
    device in half precision, the mask likewise unless it is [None],
    and [output_attentions] and [use_cache] as the client sent them. *)
Theorem first_layer_gets_converted_request
    (first : Layer) (rest : list Layer)
    (input_data : PyVal) (req : Request) (out : Response) :
  transformer_layers_split = first :: rest ->
  unpack_request input_data = OK req ->
  execute input_data = OK (Some out) ->
  exists call outs items pe,
    first call = OK outs /\
    to_device_half (hidden_states req) = OK (arg_hidden_states call) /\
    to_device_half (position_ids req) = OK (kw_position_ids call) /\
    to_device_half (past_key_values req) = OK (kw_past_key_value call) /\
    to_device_half (cache_position req) = OK (kw_cache_position call) /\
    (if is_not_None (causal_mask req)
     then to_device_half (causal_mask req)
     else OK PyNone) = OK (kw_attention_mask call) /\
    kw_output_attentions call = output_attentions req /\
    kw_use_cache call = use_cache req /\
    iterate (position_embeddings req) = OK items /\
    result_map to_device_half items = OK pe /\
    kw_position_embeddings call = PyTuple pe.
Proof.
  intros Hlayers Hreq Hex.
  apply execute_some_inv in Hex
    as (req' & hs & pids & cpos & cmask & tensors & pe & Hreq' & H1 & H2
        & H3 & H4 & H5 & _ & H7 & H8 & Hrun).
  rewrite Hreq in Hreq'. inversion Hreq'; subst req'.
  rewrite Hlayers in Hrun. cbn [run_layers] in Hrun.
  destruct (first _) as [outs|e] eqn:Hcall; [|discriminate].
  eexists; exists outs, tensors, pe. split; [exact Hcall|].
  cbn [arg_hidden_states kw_position_ids kw_past_key_value kw_cache_position
       kw_attention_mask kw_output_attentions kw_use_cache
       kw_position_embeddings].
  repeat split; try assumption.
  destruct (causal_mask req); cbn [is_not_None] in *; assumption.
Qed.

(** ** More on the listener *)

Lemma accept_loop_client_events accs :
  Forall client_event (fst (accept_loop accs)).
Proof.
  induction accs as [|[addr inb r|e] accs IH]; cbn [accept_loop].
  - constructor.
  - rewrite handle_client_returns.
    destruct (accept_loop accs) as [evs fin]. cbn [fst] in *.
    apply Forall_app. split; [|exact IH].
    unfold conn_events. repeat constructor.
    apply Forall_forall. intros ev Hin. apply in_map_iff in Hin as (x & <- & _).
    exact I.
  - repeat constructor.
Qed.


(** X17.  A pass that ends in a listener-level error leaves no
    listening socket behind: either [socket()] itself failed, or the
    pass made one socket and its last act was to close it. *)
Theorem listening_socket_closed_before_retry (a : attempt) (e : exn) :
  listener_failure a = Some e ->
  fst (listen_once a) = [SvSetupFail StSocket e] \/
  exists mid,
    fst (listen_once a) = SvSocket :: mid ++ [SvServerClose] /\
    ~ In SvSocket mid /\ ~ In SvServerClose mid.
Proof.
  unfold listener_failure, listen_once.
  destruct (setup_failure a) as [[[] e0]|].
  - intros H; inversion H; subst. left. reflexivity.
  - intros H; inversion H; subst. right.
    exists [SvSetupFail StSetsockopt e].
    split; [reflexivity|]. split; intros [Hin|[]]; discriminate.
  - intros H; inversion H; subst. right.
    exists [SvSetsockopt; SvSetupFail StBind e].
    split; [reflexivity|]. split; intros [Hin|[Hin|[]]]; discriminate.
  - intros H; inversion H; subst. right.
    exists [SvSetsockopt; SvBind; SvSetupFail StListen e].
    split; [reflexivity|].
    split; intros [Hin|[Hin|[Hin|[]]]]; discriminate.
  - intros Hacc. pose proof (accept_loop_end (accepts a)) as Hend.
    pose proof (accept_loop_client_events (accepts a)) as Hev.
    destruct (accept_loop (accepts a)) as [evs fin]. cbn [fst snd] in *.
    rewrite Hacc in Hend. subst fin. right.
    exists ([SvSetsockopt; SvBind; SvListen; SvPrint LogListening] ++ evs).
    split; [reflexivity|].
    rewrite Forall_forall in Hev.
    split; intros Hin; apply in_app_or in Hin as [Hin|Hin];
      try (apply Hev in Hin; exact Hin);
      repeat (destruct Hin as [Hin|Hin]; [discriminate|]); exact Hin.
Qed.


End ServerProperties.

(** ** The claims on the sample deployment *)

(** A request that is answered: both layers run, the reply carries the
    second layer's cache entry, and the frame goes out whole. *)
Example sample_request_answered :
  Sample.handle_client (Sample.client [x01] None) =
    (OK tt,
     mkSocket [] None
       [EvRecv 4 [x00; x00; x00; x01]; EvRecv 1 [x01];
        EvSend [x00; x00; x00; x0b];
        EvSend [x28; x54; x0d; x17; x54; x02; x02; x54; x07; x00; x74];
        EvClose]).
Proof. reflexivity. Qed.

(** A payload of 5000 bytes is read in three chunks of at most 2048. *)
Example large_payload_read_in_chunks :
  map (fun ev => match ev with EvRecv n got => (n, len got) | _ => (0, 0) end)
      (events
         (snd (readFrame
                 (fresh_socket [Data [x00; x00; x13; x88];
                                Data (repeat x61 5000)] None))))
  = [(4, 4); (2048, 2048); (2048, 2048); (904, 904)].
Proof. vm_compute. reflexivity. Qed.

(** C1.  A request whose [position_embeddings] is [None]: the branch
    that assigns [output] is skipped, line 111 reads the unassigned
    name, and the handler logs that error and closes the connection
    without a reply. *)
Theorem absent_position_embeddings_leave_output_unassigned :
  Sample.execute (Sample.request_tuple (PyBool true) PyNone) = OK None /\
  Sample.handle_client (Sample.client [x02] None) =
    (OK tt,
     mkSocket [] None
       [EvRecv 4 [x00; x00; x00; x01]; EvRecv 1 [x02];
        EvPrint (LogClientError (UnboundLocalError "output")); EvClose]).
Proof. split; reflexivity. Qed.

(** C2.  A request with [use_cache] false: no layer assigns
    [next_decoder_cache], line 106 reads the unassigned name, and the
    handler logs that error and closes the connection without a
    reply. *)
Theorem unset_use_cache_leaves_next_cache_unassigned :
  Sample.execute (Sample.request_tuple (PyBool false) Sample.rotary)
    = Raise (UnboundLocalError "next_decoder_cache") /\
  Sample.handle_client (Sample.client [x03] None) =
    (OK tt,
     mkSocket [] None
       [EvRecv 4 [x00; x00; x00; x01]; EvRecv 1 [x03];
        EvPrint (LogClientError (UnboundLocalError "next_decoder_cache"));
        EvClose]).
Proof. split; reflexivity. Qed.

(** C5, as stated, fails: a float32 tensor sent from the CPU comes
    back as a float16 tensor on the worker's device, and its element
    2049, which half precision cannot hold, comes back as 2048. *)
Lemma past_key_values_not_identical :
  exists req out,
    unpack_request Sample.tensor_rows
      (Sample.request_tuple (PyBool true) Sample.rotary) = OK req /\
    Sample.execute (Sample.request_tuple (PyBool true) Sample.rotary)
      = OK (Some out) /\
    past_key_values req = PyTensor (mkTensor "cpu" Float32 [7; 2049]) /\
    out_past_key_values out = PyTensor (mkTensor "cuda" Float16 [7; 2048]) /\
    out_past_key_values out <> past_key_values req.
Proof.
  do 2 eexists. split; [reflexivity|]. split; [reflexivity|].
  split; [reflexivity|]. split; [reflexivity|]. discriminate.
Qed.

Lemma past_key_values_echoed_after_conversion_witness :
  exists t,
    PyTensor (mkTensor "cpu" Float32 [7; 2049]) = PyTensor t /\
    PyTensor (mkTensor "cuda" Float16 [7; 2048]) =
      PyTensor (mkTensor Sample.device Float16
                  (Sample.cast_half (t_dtype t) (t_data t))).
Proof.
  apply (@past_key_values_echoed_after_conversion
           Sample.device Sample.layers Sample.cast_half Sample.tensor_rows
           Sample.tensor_bool
           (Sample.request_tuple (PyBool true) Sample.rotary)
           (mkRequest (Sample.cpu Float32 [10; 20]) PyNone
              (Sample.cpu Int64 [0; 1]) (Sample.cpu Float32 [7; 2049])
              (PyBool false) (PyBool true) (Sample.cpu Int64 [0; 1])
              Sample.rotary)
           (mkResponse
              (PyTensor (mkTensor "cuda" Float16 [13; 23]))
              (PyTensor (mkTensor "cuda" Float16 [2; 2]))
              (PyTensor (mkTensor "cuda" Float16 [7; 2048]))));
    reflexivity.
Defined.

(** C6, as stated, fails: the peer stops reading after six bytes; the
    second [sendall] raises, the error is logged, and yet the header
    and two bytes of the reply have been sent. *)
Lemma partial_reply_on_write_failure :
  let s' := snd (Sample.handle_client (Sample.client [x01] (Some 6%nat))) in
  In (EvPrint (LogClientError (OSError "Broken pipe"))) (events s') /\
  wire (events s') = [x00; x00; x00; x0b; x28; x54].
Proof.
  split; [|reflexivity]. vm_compute. tauto.
Qed.

Lemma connections_handled_one_at_a_time_witness :
  exists evA evB,
    ~ In EvClose evA /\ ~ In EvClose evB /\
    fst (Sample.accept_loop
           ([] ++ Accepted 1 [Data [x00; x00; x00; x01; x01]] None
               :: [] ++ Accepted 2 [Data [x00; x00; x00; x01; x02]] None
               :: [])) =
      flat_map Sample.outcome_events []
      ++ (SvAccept 1 :: SvPrint (LogAccepted 1)
          :: map (SvConn 1) (evA ++ [EvClose]))
      ++ flat_map Sample.outcome_events []
      ++ (SvAccept 2 :: SvPrint (LogAccepted 2)
          :: map (SvConn 2) (evB ++ [EvClose]))
      ++ fst (Sample.accept_loop []).
Proof.
  apply (@connections_handled_one_at_a_time
           Sample.device Sample.layers Sample.loads Sample.dumps
           Sample.cast_half Sample.tensor_rows Sample.tensor_bool
           [] [] []).
  reflexivity.
Defined.

Lemma supervisor_restarts_after_listener_failure_witness :
  let fails :=
    [mkAttempt (Some (StBind, OSError "Address already in use")) [];
     mkAttempt None [AcceptFails (OSError "Too many open files")]] in
  let rest :=
    [mkAttempt None [Accepted 1 [Data [x00; x00; x00; x01; x01]] None]] in
  Sample.start_server (fails ++ rest) =
    (flat_map Sample.failed_pass fails ++ fst (Sample.start_server rest),
     snd (Sample.start_server rest)) /\
  Forall (fun a =>
            exists e,
              snd (Sample.listen_once a) = Failed e /\
              Sample.failed_pass a =
                fst (Sample.listen_once a)
                ++ [SvPrint (LogServerError e); SvPrint LogTracebackHeader;
                    SvPrint (LogTraceback e)])
         fails.
Proof.
  apply (@supervisor_restarts_after_listener_failure
           Sample.device Sample.layers Sample.loads Sample.dumps
           Sample.cast_half Sample.tensor_rows Sample.tensor_bool).
  repeat constructor; simpl; discriminate.
Defined.

Lemma zero_length_frame_is_valid_witness :
  readFrame (fresh_socket [Data [x00; x00; x00; x00]] None) =
    (OK [], mkSocket [] None [EvRecv 4 [x00; x00; x00; x00]]) /\
  events (mkSocket [] None [EvRecv 4 [x00; x00; x00; x00]]) =
    events (fresh_socket [Data [x00; x00; x00; x00]] None)
    ++ [EvRecv 4 [x00; x00; x00; x00]] /\
  Sample.handle_client (fresh_socket [Data [x00; x00; x00; x00]] None) =
    try_except_finally
      (process_frame Sample.device Sample.layers Sample.loads Sample.dumps
         Sample.cast_half Sample.tensor_rows Sample.tensor_bool [])
      (fun e => print (LogClientError e)) close
      (mkSocket [] None [EvRecv 4 [x00; x00; x00; x00]]).
Proof.
  apply (@zero_length_frame_is_valid
           Sample.device Sample.layers Sample.loads Sample.dumps
           Sample.cast_half Sample.tensor_rows Sample.tensor_bool
           (fresh_socket [Data [x00; x00; x00; x00]] None)
           (mkSocket [] None [EvRecv 4 [x00; x00; x00; x00]])
           [x00; x00; x00; x00]);
    reflexivity.
Defined.

(** ** Runs of the further properties *)

Lemma readFrame_takes_exactly_the_payload_witness :
  let s := fresh_socket [Data [x00; x00; x00; x02; x61; x62; x63]] None in
  let s1 := mkSocket [Data [x61; x62; x63]] None
              [EvRecv 4 [x00; x00; x00; x02]] in
  exists s' reads,
    readFrame s = (OK (firstn (Z.to_nat 2) (readable (inbound s1))), s') /\
    readable (inbound s') = skipn (Z.to_nat 2) (readable (inbound s1)) /\
    events s' = events s1 ++ map read_event reads /\
    Forall bounded_read reads /\
    concat (map snd reads) = firstn (Z.to_nat 2) (readable (inbound s1)).
Proof.
  intros s s1.
  apply (@readFrame_takes_exactly_the_payload s s1 [x00; x00; x00; x02] 2);
    [reflexivity | reflexivity | vm_compute; discriminate].
Defined.

Lemma header_of_wrong_length_rejected_witness :
  readFrame (fresh_socket [] None) =
    (Raise (StructError "unpack requires a buffer of 4 bytes"),
     mkSocket [] None [EvRecv 4 []]).
Proof.
  apply (@header_of_wrong_length_rejected
           (fresh_socket [] None) (mkSocket [] None [EvRecv 4 []]) []);
    [reflexivity | cbn [length]; lia].
Defined.

Lemma recv_failure_ends_readFrame_witness :
  let reset := OSError "Connection reset by peer" in
  let s := fresh_socket [Data [x00; x00; x00; x05; x61]; Fault reset] None in
  exists s',
    readFrame s = (Raise reset, s') /\
    wire (events s') = wire (events s).
Proof.
  intros reset s.
  apply (@recv_failure_ends_readFrame s
           (mkSocket [Data [x61]; Fault reset] None
              [EvRecv 4 [x00; x00; x00; x05]])
           [x00; x00; x00; x05] 5 reset);
    reflexivity.
Defined.

Lemma written_frame_declares_its_length_witness :
  exists h,
    unpack_I h = OK (len [x68; x69]) /\
    len [x68; x69] < 2 ^ 32 /\
    events (mkSocket [] (Some 4%nat)
              [EvSend [x00; x00; x00; x02]; EvSend [x68; x69]])
      = events (fresh_socket [] (Some 10%nat))
        ++ [EvSend h; EvSend [x68; x69]] /\
    inbound (mkSocket [] (Some 4%nat)
               [EvSend [x00; x00; x00; x02]; EvSend [x68; x69]])
      = inbound (fresh_socket [] (Some 10%nat)) /\
    room (mkSocket [] (Some 4%nat)
            [EvSend [x00; x00; x00; x02]; EvSend [x68; x69]])
      = room_after (room (fresh_socket [] (Some 10%nat)))
          (4 + length [x68; x69]).
Proof.
  apply (@written_frame_declares_its_length
           [x68; x69] (fresh_socket [] (Some 10%nat))).
  reflexivity.
Defined.

Lemma read_failure_logged_and_unanswered_witness :
  let e := StructError "unpack requires a buffer of 4 bytes" in
  let s := fresh_socket [Data [x00; x00]] None in
  let s1 := mkSocket [] None [EvRecv 4 [x00; x00]] in
  Sample.handle_client s =
    (OK tt,
     mkSocket (inbound s1) (room s1)
       (events s1 ++ [EvPrint (LogClientError e); EvClose])) /\
  wire (events s1 ++ [EvPrint (LogClientError e); EvClose])
    = wire (events s).
Proof.
  intros e s s1.
  apply (@read_failure_logged_and_unanswered
           Sample.device Sample.layers Sample.loads Sample.dumps
           Sample.cast_half Sample.tensor_rows Sample.tensor_bool s s1 e).
  reflexivity.
Defined.

Lemma failure_before_reply_logged_and_unanswered_witness :
  let s := Sample.client [x09] None in
  let s1 := mkSocket [] None
              [EvRecv 4 [x00; x00; x00; x01]; EvRecv 1 [x09]] in
  Sample.handle_client s =
    (OK tt,
     mkSocket (inbound s1) (room s1)
       (events s1
        ++ [EvPrint (LogClientError (PickleError "could not unpickle"));
            EvClose])).
Proof.
  intros s s1.
  apply (@failure_before_reply_logged_and_unanswered
           Sample.device Sample.layers Sample.loads Sample.dumps
           Sample.cast_half Sample.tensor_rows Sample.tensor_bool
           s s1 [x09] (PickleError "could not unpickle"));
    reflexivity.
Defined.

Lemma answered_request_gets_one_frame_witness :
  let s := Sample.client [x01] (Some 20%nat) in
  let s1 := mkSocket [] (Some 20%nat)
              [EvRecv 4 [x00; x00; x00; x01]; EvRecv 1 [x01]] in
  let p := [x28; x54; x0d; x17; x54; x02; x02; x54; x07; x00; x74] in
  Sample.handle_client s =
    (OK tt,
     mkSocket (inbound s1) (room_after (room s) (4 + length p))
       (events s1 ++ [EvSend [x00; x00; x00; x0b]; EvSend p; EvClose])).
Proof.
  intros s s1 p.
  apply (@answered_request_gets_one_frame
           Sample.device Sample.layers Sample.loads Sample.dumps
           Sample.cast_half Sample.tensor_rows Sample.tensor_bool
           s s1 [x01] p [x00; x00; x00; x0b]);
    reflexivity.
Defined.

Lemma failing_layer_aborts_the_loop_witness :
  let hs := Sample.cpu Float16 [10; 20] in
  let bad : Layer := fun _ => Raise (ModuleError "CUDA out of memory") in
  run_layers Sample.tensor_bool ([Sample.layer 1] ++ bad :: [Sample.layer 2])
    PyNone PyNone PyNone (PyBool false) (PyBool true) PyNone PyNone hs None
  = Raise (ModuleError "CUDA out of memory").
Proof.
  intros hs bad.
  apply (@failing_layer_aborts_the_loop Sample.tensor_bool
           [Sample.layer 1] [Sample.layer 2] bad
           PyNone PyNone PyNone (PyBool false) (PyBool true) PyNone PyNone
           hs (Sample.cpu Float16 [11; 21]) None
           (Some (PyTensor (mkTensor Sample.device Float16 [1; 1])))
           (ModuleError "CUDA out of memory"));
    reflexivity.
Defined.

Lemma short_layer_output_rejected_witness :
  let bare : Layer := fun call => OK [arg_hidden_states call] in
  run_layers Sample.tensor_bool (bare :: [Sample.layer 2])
    PyNone PyNone PyNone (PyBool false) (PyBool true) PyNone PyNone
    (Sample.cpu Float16 [10; 20]) None
  = Raise (IndexError "tuple index out of range").
Proof.
  intros bare.
  apply (@short_layer_output_rejected Sample.tensor_bool
           bare [Sample.layer 2] [Sample.cpu Float16 [10; 20]]
           PyNone PyNone PyNone (PyBool false) (PyBool true) PyNone PyNone
           (Sample.cpu Float16 [10; 20]) None false);
    [reflexivity | reflexivity | reflexivity | cbn [length]; lia].
Defined.


Lemma reply_comes_from_last_layer_witness :
  let req :=
    mkRequest (Sample.cpu Float32 [10; 20]) PyNone
      (Sample.cpu Int64 [0; 1]) (Sample.cpu Float32 [7; 2049])
      (PyBool false) (PyBool true) (Sample.cpu Int64 [0; 1])
      Sample.rotary in
  let out :=
    mkResponse
      (PyTensor (mkTensor "cuda" Float16 [13; 23]))
      (PyTensor (mkTensor "cuda" Float16 [2; 2]))
      (PyTensor (mkTensor "cuda" Float16 [7; 2048])) in
  exists front last call outs b,
    Sample.layers = front ++ [last] /\
    last call = OK outs /\
    truthy Sample.tensor_bool (output_attentions req) = OK b /\
    tuple_index outs 0 = OK (out_hidden_states out) /\
    tuple_index outs (if b then 2 else 1)%nat = OK (next_cache out).
Proof.
  intros req out.
  apply (@reply_comes_from_last_layer
           Sample.device Sample.layers Sample.cast_half Sample.tensor_rows
           Sample.tensor_bool
           (Sample.request_tuple (PyBool true) Sample.rotary) req out);
    reflexivity.
Defined.

Lemma wrong_arity_rejected_witness :
  Sample.execute (PyTuple [PyNone; PyBool true]) =
    Raise (ValueError "wrong number of values to unpack (expected 8)").
Proof.
  apply (@wrong_arity_rejected
           Sample.device Sample.layers Sample.cast_half Sample.tensor_rows
           Sample.tensor_bool [PyNone; PyBool true]).
  cbn [length]. lia.
Defined.


Lemma first_layer_gets_converted_request_witness :
  let req :=
    mkRequest (Sample.cpu Float32 [10; 20]) PyNone
      (Sample.cpu Int64 [0; 1]) (Sample.cpu Float32 [7; 2049])
      (PyBool false) (PyBool true) (Sample.cpu Int64 [0; 1])
      Sample.rotary in
  let conv := to_device_half Sample.device Sample.cast_half in
  exists call outs items pe,
    Sample.layer 1 call = OK outs /\
    conv (hidden_states req) = OK (arg_hidden_states call) /\
    conv (position_ids req) = OK (kw_position_ids call) /\
    conv (past_key_values req) = OK (kw_past_key_value call) /\
    conv (cache_position req) = OK (kw_cache_position call) /\
    (if is_not_None (causal_mask req)
     then conv (causal_mask req)
     else OK PyNone) = OK (kw_attention_mask call) /\
    kw_output_attentions call = output_attentions req /\
    kw_use_cache call = use_cache req /\
    iterate Sample.tensor_rows (position_embeddings req) = OK items /\
    result_map conv items = OK pe /\
    kw_position_embeddings call = PyTuple pe.
Proof.
  intros req conv.
  apply (@first_layer_gets_converted_request
           Sample.device Sample.layers Sample.cast_half Sample.tensor_rows
           Sample.tensor_bool (Sample.layer 1) [Sample.layer 2]
           (Sample.request_tuple (PyBool true) Sample.rotary) req
           (mkResponse
              (PyTensor (mkTensor "cuda" Float16 [13; 23]))
              (PyTensor (mkTensor "cuda" Float16 [2; 2]))
              (PyTensor (mkTensor "cuda" Float16 [7; 2048]))));
    reflexivity.
Defined.

Lemma listening_socket_closed_before_retry_witness :
  let e := OSError "Address already in use" in
  let a := mkAttempt (Some (StBind, e)) [] in
  fst (Sample.listen_once a) = [SvSetupFail StSocket e] \/
  exists mid,
    fst (Sample.listen_once a) = SvSocket :: mid ++ [SvServerClose] /\
    ~ In SvSocket mid /\ ~ In SvServerClose mid.
Proof.
  intros e a.
  apply (@listening_socket_closed_before_retry
           Sample.device Sample.layers Sample.loads Sample.dumps
           Sample.cast_half Sample.tensor_rows Sample.tensor_bool a e).
  reflexivity.
Defined.

